(** * Forgetting Engine, neural architecture search

    A shallow embedding of
    [data/domain_results/neural_architecture/fe_nas_fixed_chip.py]:
    the [Architecture] dataclass, the search space [NASRefinerDomain], the
    engine [ForgettingEngineNAS] and the two sampling loops of
    [run_nas_validation], followed by the properties of the search loop.

    Conventions of the embedding.
    - Python [float] is IEEE binary64: Rocq's primitive [float], with the
      same correctly rounded [+ - * /] and the same comparisons.
    - Python [int] is [Z].
    - An exception is a value of [pyerr]; code that can raise returns
      [result].
    - The two [random.Random] objects (one owned by the domain, one by the
      engine) are states of an abstract generator [RandomGen]; every method
      that draws takes the object and returns it with its generator advanced.
    - [numpy.mean] and [numpy.percentile] are operations of an abstract
      [Numpy] interface.

    Limits of the embedding.
    - An [Architecture] is a value.  In Python the members of
      [self.population], of the paradox buffer and [best_overall] are
      references, and the loop overwrites [elim_score] in place; the model
      recomputes the scores of the stored population in every generation, as
      the code does, but an architecture recorded as [best_overall] keeps
      the [elim_score] it had when it was recorded.  No statement below
      reads that field of [best_overall].
    - [sorted] is modelled by a stable insertion sort, which returns what
      Python's sort returns whenever the keys contain no NaN.
    - [int / int] is the quotient of the two conversions to [float], which
      is Python's result when both integers are below 2^53 in magnitude.
    - A list is never long enough for [float(len(l))] to overflow.  *)

From Stdlib Require Import String ZArith List Floats Bool Lia.
From Stdlib Require Import Sorting.Permutation Sorting.Sorted.
Import ListNotations.

Set Warnings "-inexact-float".
Open Scope string_scope.
Open Scope list_scope.
Open Scope Z_scope.

(* ===================================================================== *)
(** ** Exceptions *)
(* ===================================================================== *)

Inductive pyerr : Type :=
| ValueError
| IndexError
| ZeroDivisionError
| OverflowError
| AttributeError
| OutOfFuel.   (* the model's loop bound was hit: not a Python exception *)

Inductive result (A : Type) : Type :=
| Ok (a : A)
| Raise (e : pyerr).

Arguments Ok {A} a.
Arguments Raise {A} e.

Definition rbind {A B} (r : result A) (k : A -> result B) : result B :=
  match r with
  | Ok a => k a
  | Raise e => Raise e
  end.

Declare Scope py_scope.
Delimit Scope py_scope with py.
Notation "x <- c ;; k" := (rbind c (fun x => k))
  (at level 61, c at next level, right associativity) : py_scope.
Notation "' p <- c ;; k" := (rbind c (fun p => k))
  (at level 61, p pattern, c at next level, right associativity) : py_scope.
Open Scope py_scope.

Fixpoint mapM {A B} (f : A -> result B) (l : list A) : result (list B) :=
  match l with
  | [] => Ok []
  | x :: l' => y <- f x ;; ys <- mapM f l' ;; Ok (y :: ys)
  end.

(* ===================================================================== *)
(** ** Python numbers *)
(* ===================================================================== *)

Module Py.

(** [float(n)] for an [int] whose magnitude is below 2^1024: the nearest
    binary64 value, ties to even. *)
Definition float_of_Z (z : Z) : float :=
  SF2Prim (binary_normalize prec emax z 0 false).

(** The implicit conversion of an [int] operand in [int * float]: it raises
    [OverflowError] when the integer is too large for a float. *)
Definition to_float (z : Z) : result float :=
  let f := float_of_Z z in
  match Prim2SF f with
  | S754_infinity _ => Raise OverflowError
  | _ => Ok f
  end.

(** Magnitude of a finite float [m * 2^e], truncated to an integer. *)
Definition trunc_mag (m : positive) (e : Z) : Z :=
  if 0 <=? e then Z.pos m * 2 ^ e else Z.pos m / 2 ^ (- e).

(** [int(x)]: truncation toward zero; [ValueError] on NaN, [OverflowError]
    on an infinity. *)
Definition int (x : float) : result Z :=
  match Prim2SF x with
  | S754_zero _ => Ok 0
  | S754_finite s m e => Ok (if s then - trunc_mag m e else trunc_mag m e)
  | S754_infinity _ => Raise OverflowError
  | S754_nan => Raise ValueError
  end.

(** [math.floor(x)]: the largest integer not above [x]. *)
Definition floor (x : float) : result Z :=
  match Prim2SF x with
  | S754_zero _ => Ok 0
  | S754_finite s m e =>
      Ok (if s
          then (if 0 <=? e then - (Z.pos m * 2 ^ e)
                else - ((Z.pos m + 2 ^ (- e) - 1) / 2 ^ (- e)))
          else trunc_mag m e)
  | S754_infinity _ => Raise OverflowError
  | S754_nan => Raise ValueError
  end.

(** [round(x)] with one argument: the nearest integer, ties to even. *)
Definition round (x : float) : result Z :=
  match Prim2SF x with
  | S754_zero _ => Ok 0
  | S754_finite s m e =>
      let a :=
        if 0 <=? e then Z.pos m * 2 ^ e
        else
          let d := 2 ^ (- e) in
          let q := Z.pos m / d in
          let r := Z.pos m mod d in
          match 2 * r ?= d with
          | Lt => q
          | Gt => q + 1
          | Eq => if Z.even q then q else q + 1
          end in
      Ok (if s then - a else a)
  | S754_infinity _ => Raise OverflowError
  | S754_nan => Raise ValueError
  end.

(** [max(a, b)] and [min(a, b)] on floats: the second argument replaces the
    first only when it compares strictly greater (smaller). *)
Definition max2 (a b : float) : float := if (a <? b)%float then b else a.
Definition min2 (a b : float) : float := if (b <? a)%float then b else a.

(** [a / b] on two [int]s.  The quotient of the two conversions, which is
    what CPython computes when both operands are below 2^53 in magnitude. *)
Definition truediv (a b : Z) : result float :=
  if b =? 0 then Raise ZeroDivisionError
  else Ok (float_of_Z a / float_of_Z b)%float.

(** [range(a, b)]. *)
Definition range (a b : Z) : list Z :=
  map (fun i => a + Z.of_nat i) (seq 0 (Z.to_nat (b - a))).

(** The bound of a slice [l[:k]] or [l[k:]] on a list of length [len]:
    a negative [k] counts from the end, and the result is clipped. *)
Definition slice_index (k : Z) (len : nat) : nat :=
  if k <? 0 then Z.to_nat (Z.max 0 (Z.of_nat len + k))
  else Nat.min (Z.to_nat k) len.

Definition slice_to {A} (k : Z) (l : list A) : list A :=
  firstn (slice_index k (length l)) l.

Definition slice_from {A} (k : Z) (l : list A) : list A :=
  skipn (slice_index k (length l)) l.

(** [l[i]] for [0 <= i < len(l)]; [IndexError] past the end. *)
Definition getitem {A} (l : list A) (i : Z) : result A :=
  if (0 <=? i) && (i <? Z.of_nat (length l)) then
    match nth_error l (Z.to_nat i) with
    | Some x => Ok x
    | None => Raise IndexError
    end
  else Raise IndexError.

(** [l[i] = x]. *)
Definition setitem {A} (l : list A) (i : Z) (x : A) : result (list A) :=
  if (0 <=? i) && (i <? Z.of_nat (length l)) then
    Ok (firstn (Z.to_nat i) l ++ x :: skipn (S (Z.to_nat i)) l)
  else Raise IndexError.

(** [del l[i]]. *)
Definition delitem {A} (l : list A) (i : Z) : result (list A) :=
  if (0 <=? i) && (i <? Z.of_nat (length l)) then
    Ok (firstn (Z.to_nat i) l ++ skipn (S (Z.to_nat i)) l)
  else Raise IndexError.

(** [l.insert(i, x)] for [0 <= i]; a position past the end appends. *)
Definition insert {A} (l : list A) (i : Z) (x : A) : list A :=
  firstn (Z.to_nat i) l ++ x :: skipn (Z.to_nat i) l.

(** [sorted(l, key=key, reverse=True)] for keys that are floats.  Python's
    sort is stable, also under [reverse=True]; on keys without NaN a stable
    sort has one possible result, the one insertion gives. *)
Fixpoint insert_desc {A} (key : A -> float) (x : A) (l : list A) : list A :=
  match l with
  | [] => [x]
  | y :: l' =>
      if (key x <? key y)%float then y :: insert_desc key x l'
      else x :: y :: l'
  end.

Definition sorted_desc {A} (key : A -> float) (l : list A) : list A :=
  fold_right (insert_desc key) [] l.

(** [sorted(l, key=key)] for integer keys: stable, ascending. *)
Fixpoint insert_asc {A} (key : A -> Z) (x : A) (l : list A) : list A :=
  match l with
  | [] => [x]
  | y :: l' =>
      if key y <? key x then y :: insert_asc key x l'
      else x :: y :: l'
  end.

Definition sorted_asc {A} (key : A -> Z) (l : list A) : list A :=
  fold_right (insert_asc key) [] l.

(** [max(l, key=key)]: the first element whose key no later element
    exceeds; [ValueError] on an empty list. *)
Definition max_by {A} (key : A -> float) (l : list A) : result A :=
  match l with
  | [] => Raise ValueError
  | x :: l' =>
      Ok (fold_left (fun best item =>
                       if (key best <? key item)%float then item else best)
                    l' x)
  end.

(** [sum(...)] over integers. *)
Definition sum (l : list Z) : Z := fold_left Z.add l 0.

End Py.

(* ===================================================================== *)
(** ** The random generator and numpy, as interfaces *)
(* ===================================================================== *)

(** A [random.Random] object.  [randbelow n] is the generator's uniform draw
    from [0, n); [rand_random] is [random()]; [rand_sample2 n] is
    [sample(range(n), 2)], two distinct positions. *)
Class RandomGen (G : Type) : Type := {
  seed_rng : Z -> G;
  randbelow : Z -> G -> Z * G;
  rand_random : G -> float * G;
  rand_sample2 : Z -> G -> (Z * Z) * G;
  randbelow_range : forall n g, 0 < n -> 0 <= fst (randbelow n g) < n;
  rand_sample2_range : forall n g, 2 <= n ->
    0 <= fst (fst (rand_sample2 n g)) < n /\
    0 <= snd (fst (rand_sample2 n g)) < n /\
    fst (fst (rand_sample2 n g)) <> snd (fst (rand_sample2 n g))
}.

(** [numpy.mean] of a list of floats and [numpy.percentile(l, q)] of a list of
    integers. *)
Class Numpy : Type := {
  np_mean : list float -> float;
  np_percentile : list Z -> Z -> float
}.

Section Random.
Context {G : Type} `{RandomGen G}.

(** [rng.randrange(n)]. *)
Definition randrange (n : Z) (g : G) : result (Z * G) :=
  if 0 <? n then Ok (randbelow n g) else Raise ValueError.

(** [rng.randint(a, b)], that is [a + randbelow(b - a + 1)]. *)
Definition randint (a b : Z) (g : G) : result (Z * G) :=
  if 0 <? b - a + 1 then
    let (i, g') := randbelow (b - a + 1) g in Ok (a + i, g')
  else Raise ValueError.

(** [rng.choice(seq)]: [IndexError] on an empty sequence. *)
Definition choice {A} (l : list A) (g : G) : result (A * G) :=
  match l with
  | [] => Raise IndexError
  | _ =>
      let (i, g') := randbelow (Z.of_nat (length l)) g in
      x <- Py.getitem l i ;; Ok (x, g')
  end.

(** [rng.uniform(a, b)], that is [a + (b - a) * random()]. *)
Definition uniform (a b : float) (g : G) : float * G :=
  let (u, g') := rand_random g in ((a + (b - a) * u)%float, g').

End Random.

(* ===================================================================== *)
(** ** [Architecture] *)
(* ===================================================================== *)

(** The dataclass: [accuracy], [novelty_score] and [elim_score] default to
    [0.0]. *)
Record Architecture : Type := {
  layers : list string;
  params : Z;
  accuracy : float;
  novelty_score : float;
  elim_score : float
}.

Definition new_Architecture (l : list string) (p : Z) : Architecture :=
  {| layers := l; params := p; accuracy := 0.0;
     novelty_score := 0.0; elim_score := 0.0 |}.

Definition set_accuracy (a : Architecture) (x : float) : Architecture :=
  {| layers := layers a; params := params a; accuracy := x;
     novelty_score := novelty_score a; elim_score := elim_score a |}.

Definition set_elim_score (a : Architecture) (x : float) : Architecture :=
  {| layers := layers a; params := params a; accuracy := accuracy a;
     novelty_score := novelty_score a; elim_score := x |}.

(** [self.ops] of the domain, set once by its constructor. *)
Definition ops : list string := ["CONV3"; "CONV5"; "POOL"; "DROP"].

(** The dictionary [params_per_layer] and its [.get(op, 10000)]. *)
Definition params_per_layer : list (string * Z) :=
  [("CONV3", 50000); ("CONV5", 100000); ("POOL", 1000); ("DROP", 500)].

Fixpoint dict_get (d : list (string * Z)) (k : string) (default : Z) : Z :=
  match d with
  | [] => default
  | (k', v) :: d' => if String.eqb k k' then v else dict_get d' k default
  end.

(** [sum(params_per_layer.get(op, 10000) for op in layers)] *)
Definition count_params (l : list string) : Z :=
  Py.sum (map (fun op => dict_get params_per_layer op 10000) l).

(** [is_empty l] is Python's [not l]. *)
Definition is_empty {A} (l : list A) : bool :=
  match l with [] => true | _ => false end.

Definition len {A} (l : list A) : Z := Z.of_nat (length l).

(* ===================================================================== *)
(** ** [NASRefinerDomain] *)
(* ===================================================================== *)

Module NASRefinerDomain.
Section Domain.
Context {G : Type} `{RandomGen G} `{Numpy}.

Record t : Type := {
  target_complexity : Z;
  rng : G
}.

Definition set_rng (self : t) (g : G) : t :=
  {| target_complexity := target_complexity self; rng := g |}.

Definition __init__ (target_complexity seed : Z) : t :=
  {| target_complexity := target_complexity; rng := seed_rng seed |}.

(** [[rng.choice(ops) for _ in range(n)]] *)
Fixpoint draw_layers (n : nat) (g : G) : result (list string * G) :=
  match n with
  | O => Ok ([], g)
  | S n' =>
      '(op, g1) <- choice ops g ;;
      '(rest, g2) <- draw_layers n' g1 ;;
      Ok (op :: rest, g2)
  end.

Definition estimate_performance (self : t) (arch : Architecture)
  : float * t :=
  if is_empty (layers arch) then (0.0%float, self)
  else
    let depth_penalty :=
      (1.0 - Py.float_of_Z (len (layers arch)) / 20.0)%float in
    let conv_bonus :=
      (Py.float_of_Z (Z.of_nat (count_occ string_dec (layers arch) "CONV3"))
         * 0.05
       + Py.float_of_Z (Z.of_nat (count_occ string_dec (layers arch) "CONV5"))
         * 0.08)%float in
    let (noise, g) := uniform (-0.02)%float 0.02%float (rng self) in
    (Py.min2 0.98 (Py.max2 0.0 (0.70 + conv_bonus * depth_penalty + noise)),
     set_rng self g).

Definition _create_random_arch (self : t) : result (Architecture * t) :=
  '(depth, g1) <- randint 3 10 (rng self) ;;
  '(layers, g2) <- draw_layers (Z.to_nat depth) g1 ;;
  let params := count_params layers in
  let arch := new_Architecture layers params in
  let (acc, self) := estimate_performance (set_rng self g2) arch in
  Ok (set_accuracy arch acc, self).

Definition compute_elimination_score (self : t) (arch : Architecture)
  (gen : Z) : result float :=
  let alpha := (-1.0)%float in
  let beta := 0.1%float in
  let gamma := 0.3%float in
  let delta := (-0.1)%float in
  let fitness := accuracy arch in
  complexity <- Py.truediv (params arch) (target_complexity self) ;;
  novelty <- Py.truediv (len (nodup string_dec (layers arch))) (len ops) ;;
  let age := 0 in
  Ok ((alpha * fitness + beta * complexity + gamma * novelty
       + delta * Py.float_of_Z age)
      / Py.float_of_Z (Z.max 1 gen))%float.

(** [arch.params < size_threshold] compares an [int] with a numpy float: the
    integer is converted, exactly when it is below 2^53. *)
Definition is_paradoxical (self : t) (arch : Architecture)
  (pop_accs : list float) (pop_sizes : list Z) : bool :=
  if is_empty pop_accs || is_empty pop_sizes then false
  else
    let acc_threshold := np_mean pop_accs in
    let size_threshold := np_percentile pop_sizes 25 in
    (accuracy arch <? acc_threshold)%float
    && (Py.float_of_Z (params arch) <? size_threshold)%float.

End Domain.
End NASRefinerDomain.

(* ===================================================================== *)
(** ** [ForgettingEngineNAS] *)
(* ===================================================================== *)

(** The four mutation names [["swap", "add", "remove", "replace"]]. *)
Inductive mutation : Type := swap | add | remove | replace.

(** The dictionary [run] returns beside the best architecture. *)
Record meta : Type := { paradox_count : Z }.

Module ForgettingEngineNAS.
Section Engine.
Context {G : Type} `{RandomGen G} `{Numpy}.

Abbreviation Domain := (@NASRefinerDomain.t G).

Record t : Type := {
  domain : Domain;
  pop_size : Z;
  generations : Z;
  forget_rate : float;
  paradox_rate : float;
  rng : G;
  population : list Architecture;
  paradox_buffer : list Architecture;
  best_overall : option Architecture
}.

Definition set_domain (self : t) (d : Domain) : t :=
  {| domain := d; pop_size := pop_size self;
     generations := generations self; forget_rate := forget_rate self;
     paradox_rate := paradox_rate self; rng := rng self;
     population := population self;
     paradox_buffer := paradox_buffer self;
     best_overall := best_overall self |}.

Definition set_rng (self : t) (g : G) : t :=
  {| domain := domain self; pop_size := pop_size self;
     generations := generations self; forget_rate := forget_rate self;
     paradox_rate := paradox_rate self; rng := g;
     population := population self;
     paradox_buffer := paradox_buffer self;
     best_overall := best_overall self |}.

Definition set_population (self : t) (p : list Architecture) : t :=
  {| domain := domain self; pop_size := pop_size self;
     generations := generations self; forget_rate := forget_rate self;
     paradox_rate := paradox_rate self; rng := rng self;
     population := p;
     paradox_buffer := paradox_buffer self;
     best_overall := best_overall self |}.

Definition set_paradox_buffer (self : t) (b : list Architecture) : t :=
  {| domain := domain self; pop_size := pop_size self;
     generations := generations self; forget_rate := forget_rate self;
     paradox_rate := paradox_rate self; rng := rng self;
     population := population self;
     paradox_buffer := b;
     best_overall := best_overall self |}.

Definition set_best_overall (self : t) (b : option Architecture) : t :=
  {| domain := domain self; pop_size := pop_size self;
     generations := generations self; forget_rate := forget_rate self;
     paradox_rate := paradox_rate self; rng := rng self;
     population := population self;
     paradox_buffer := paradox_buffer self;
     best_overall := b |}.

(** The constructor stores its arguments; it checks none of them. *)
Definition __init__ (domain : Domain) (pop_size generations : Z)
  (forget_rate paradox_rate : float) (seed : Z) : result t :=
  Ok {| domain := domain; pop_size := pop_size;
        generations := generations; forget_rate := forget_rate;
        paradox_rate := paradox_rate; rng := seed_rng seed;
        population := []; paradox_buffer := []; best_overall := None |}.

Definition _create_random_arch (self : t) : result (Architecture * t) :=
  '(num_layers, g1) <- randint 5 20 (rng self) ;;
  '(layers, g2) <- NASRefinerDomain.draw_layers (Z.to_nat num_layers) g1 ;;
  let params := count_params layers in
  let arch := new_Architecture layers params in
  let (acc, d) :=
    NASRefinerDomain.estimate_performance (domain self) arch in
  Ok (set_accuracy arch acc, set_domain (set_rng self g2) d).

(** The [if]/[elif] chain of [mutate_arch] on [new_layers]; a branch whose
    guard fails leaves the list as it is and draws nothing more. *)
Definition apply_mutation (mutation_type : mutation)
  (new_layers : list string) (g : G) : result (list string * G) :=
  match mutation_type with
  | swap =>
      if 1 <? len new_layers then
        let '((i, j), g1) := rand_sample2 (len new_layers) g in
        lj <- Py.getitem new_layers j ;;
        li <- Py.getitem new_layers i ;;
        l1 <- Py.setitem new_layers i lj ;;
        l2 <- Py.setitem l1 j li ;;
        Ok (l2, g1)
      else Ok (new_layers, g)
  | add =>
      '(insert_pos, g1) <- randrange (len new_layers + 1) g ;;
      '(op, g2) <- choice ops g1 ;;
      Ok (Py.insert new_layers insert_pos op, g2)
  | remove =>
      if 3 <? len new_layers then
        '(remove_pos, g1) <- randrange (len new_layers) g ;;
        l1 <- Py.delitem new_layers remove_pos ;;
        Ok (l1, g1)
      else Ok (new_layers, g)
  | replace =>
      '(replace_pos, g1) <- randrange (len new_layers) g ;;
      '(op, g2) <- choice ops g1 ;;
      l1 <- Py.setitem new_layers replace_pos op ;;
      Ok (l1, g2)
  end.

Definition mutate_arch (self : t) (parent : Architecture)
  : result (Architecture * t) :=
  let new_layers := layers parent in
  if is_empty new_layers then _create_random_arch self
  else
    '(mutation_type, g1) <- choice [swap; add; remove; replace] (rng self) ;;
    '(new_layers, g2) <- apply_mutation mutation_type new_layers g1 ;;
    let params := count_params new_layers in
    let child := new_Architecture new_layers params in
    let (acc, d) :=
      NASRefinerDomain.estimate_performance (domain self) child in
    Ok (set_accuracy child acc, set_domain (set_rng self g2) d).

(** [[self._create_random_arch() for _ in range(n)]] *)
Fixpoint create_population (n : nat) (self : t)
  : result (list Architecture * t) :=
  match n with
  | O => Ok ([], self)
  | S n' =>
      '(a, self1) <- _create_random_arch self ;;
      '(rest, self2) <- create_population n' self1 ;;
      Ok (a :: rest, self2)
  end.

(** The two statements of [run] before its loop. *)
Definition run_init (self : t) : result t :=
  '(pop, self) <- create_population (Z.to_nat (pop_size self)) self ;;
  let self := set_population self pop in
  best <- Py.max_by accuracy (population self) ;;
  Ok (set_best_overall self (Some best)).

(** [int(self.pop_size * (1 - self.forget_rate))] *)
Definition keep_count (self : t) : result Z :=
  let r := (1 - forget_rate self)%float in
  p <- Py.to_float (pop_size self) ;;
  Py.int (p * r)%float.

(** [max(1, int(self.paradox_rate * self.pop_size))] *)
Definition paradox_capacity (self : t) : result Z :=
  p <- Py.to_float (pop_size self) ;;
  k <- Py.int (paradox_rate self * p)%float ;;
  Ok (Z.max 1 k).

(** What one generation computes before it refills the population. *)
Record selection : Type := {
  sel_sorted : list Architecture;
  sel_elite : list Architecture;
  sel_eliminated : list Architecture;
  sel_candidates : list Architecture
}.

(** The first half of the loop body: scores, sort, partition and the new
    paradox buffer.  The scores are written into the members of
    [self.population], the list that is sorted in every generation. *)
Definition select (gen : Z) (self : t) : result (selection * t) :=
  scored <- mapM (fun a =>
                    s <- NASRefinerDomain.compute_elimination_score
                           (domain self) a gen ;;
                    Ok (set_elim_score a s))
                 (population self) ;;
  let self := set_population self scored in
  let population := Py.sorted_desc elim_score (population self) in
  keep_count <- keep_count self ;;
  let elite := Py.slice_to keep_count population in
  let eliminated := Py.slice_from keep_count population in
  let accs := map accuracy population in
  let sizes := map params population in
  let paradox_candidates :=
    filter (fun a =>
              NASRefinerDomain.is_paradoxical (domain self) a accs sizes)
           eliminated in
  capacity <- paradox_capacity self ;;
  let self :=
    set_paradox_buffer self
      (Py.slice_to capacity (Py.sorted_asc params paradox_candidates)) in
  Ok ({| sel_sorted := population; sel_elite := elite;
         sel_eliminated := eliminated;
         sel_candidates := paradox_candidates |}, self).

(** The [while len(population) < self.pop_size] loop.  Every iteration
    appends one member, so [fuel] iterations suffice whenever [fuel] is at
    least the number of missing members. *)
Fixpoint fill (fuel : nat) (elite population : list Architecture)
  (self : t) : result (list Architecture * t) :=
  if len population <? pop_size self then
    match fuel with
    | O => Raise OutOfFuel
    | S fuel' =>
        let (u, g1) := rand_random (rng self) in
        let self := set_rng self g1 in
        if (u <? 0.2)%float && negb (is_empty (paradox_buffer self)) then
          '(p, g2) <- choice (paradox_buffer self) (rng self) ;;
          fill fuel' elite (population ++ [p]) (set_rng self g2)
        else
          '(parent, g2) <- choice elite (rng self) ;;
          '(child, self) <- mutate_arch (set_rng self g2) parent ;;
          fill fuel' elite (population ++ [child]) self
    end
  else Ok (population, self).

(** [if current_best.accuracy > self.best_overall.accuracy] *)
Definition update_best (self : t) (current_best : Architecture)
  : result t :=
  match best_overall self with
  | None => Raise AttributeError
  | Some best =>
      if (accuracy best <? accuracy current_best)%float
      then Ok (set_best_overall self (Some current_best))
      else Ok self
  end.

(** One iteration of the [for gen in range(1, generations + 1)] loop; the
    result carries the local [population] of that iteration. *)
Definition generation_step (gen : Z) (self : t)
  : result (list Architecture * t) :=
  '(sel, self) <- select gen self ;;
  '(population, self) <-
     fill (Z.to_nat (pop_size self)) (sel_elite sel) (sel_elite sel) self ;;
  current_best <- Py.max_by accuracy population ;;
  self <- update_best self current_best ;;
  Ok (population, self).

Fixpoint run_loop (gens : list Z) (self : t) : result t :=
  match gens with
  | [] => Ok self
  | gen :: gens' =>
      '(_, self) <- generation_step gen self ;;
      run_loop gens' self
  end.

(** [run] cut after [n] generations. *)
Definition run_generations (n : Z) (self : t) : result t :=
  self <- run_init self ;;
  run_loop (Py.range 1 (n + 1)) self.

Definition run (self : t) : result ((option Architecture * meta) * t) :=
  self <- run_generations (generations self) self ;;
  let meta := {| paradox_count := len (paradox_buffer self) |} in
  Ok ((best_overall self, meta), self).

End Engine.
End ForgettingEngineNAS.

(* ===================================================================== *)
(** ** [run_nas_validation]: the two sampling loops *)
(* ===================================================================== *)

(** The part of [run_nas_validation] that runs the search: the loop of
    Forgetting Engine trials and the loop of random-search trials, both over
    the one [domain] object the function constructs.  The statistics on the
    two lists (scipy, numpy), the log lines and the JSON file that follow are
    outside the embedding. *)
Module Validation.
Section Loops.
Context {G : Type} `{RandomGen G} `{Numpy}.

Abbreviation Domain := (@NASRefinerDomain.t G).

(** [ForgettingEngineNAS(domain, seed=seed)]: the other arguments take the
    defaults of the constructor's signature. *)
Definition default_engine (domain : Domain) (seed : Z)
  : result (@ForgettingEngineNAS.t G) :=
  ForgettingEngineNAS.__init__ domain 50 100 0.35 0.15 seed.

(** [for t in range(n_trials)] of the Forgetting Engine.  The engine holds a
    reference to [domain], so the domain the next trial receives is the one
    the run left.  [if best] holds for every architecture object. *)
Fixpoint fe_trials (trials : list Z) (domain : Domain) (fe_accs : list float)
  : result (list float * Domain) :=
  match trials with
  | [] => Ok (fe_accs, domain)
  | t :: trials' =>
      engine <- default_engine domain (6000 + t) ;;
      '((best, _), engine) <- ForgettingEngineNAS.run engine ;;
      let fe_accs :=
        match best with
        | Some b => fe_accs ++ [accuracy b]
        | None => fe_accs
        end in
      fe_trials trials' (ForgettingEngineNAS.domain engine) fe_accs
  end.

(** [for _ in range(n)] of one random-search trial, from [best_mc]. *)
Fixpoint mc_search (n : nat) (domain : Domain) (best_mc : float)
  : result (float * Domain) :=
  match n with
  | O => Ok (best_mc, domain)
  | S n' =>
      '(arch, domain) <- NASRefinerDomain._create_random_arch domain ;;
      let best_mc :=
        if (best_mc <? accuracy arch)%float then accuracy arch else best_mc in
      mc_search n' domain best_mc
  end.

(** [for t in range(n_trials)] of the random search: 500 samples each. *)
Fixpoint mc_trials (trials : list Z) (domain : Domain) (mc_accs : list float)
  : result (list float * Domain) :=
  match trials with
  | [] => Ok (mc_accs, domain)
  | t :: trials' =>
      '(best_mc, domain) <- mc_search 500 domain 0.0%float ;;
      mc_trials trials' domain (mc_accs ++ [best_mc])
  end.

(** The lists [fe_accs] and [mc_accs] of [run_nas_validation(n_trials)]. *)
Definition validation_samples (n_trials : Z)
  : result (list float * list float) :=
  let domain := NASRefinerDomain.__init__ (G:=G) 1000000 42 in
  '(fe_accs, domain) <- fe_trials (Py.range 0 n_trials) domain [] ;;
  '(mc_accs, _) <- mc_trials (Py.range 0 n_trials) domain [] ;;
  Ok (fe_accs, mc_accs).

End Loops.
End Validation.

(* ===================================================================== *)
(** ** Instances used to run the model *)
(* ===================================================================== *)

(** A generator that replays a script of raw draws and then continues with a
    linear congruential sequence.  It stands for a [random.Random] object in
    a state from which the scripted draws come out next; it is not the
    Mersenne Twister. *)
Module Scripted.

Record gen : Type := { tape : list Z; state : Z }.

Definition lcg_next (s : Z) : Z :=
  (6364136223846793005 * s + 1442695040888963407) mod 2 ^ 64.

Definition next (g : gen) : Z * gen :=
  match tape g with
  | x :: t => (x, {| tape := t; state := state g |})
  | [] =>
      let s := lcg_next (state g) in
      (s / 2 ^ 11, {| tape := []; state := s |})
  end.

Definition below (n : Z) (g : gen) : Z * gen :=
  let (x, g') := next g in (x mod n, g').

(** The raw draw over 2^53, as [random()] builds its result. *)
Definition unit_float (g : gen) : float * gen :=
  let (x, g') := next g in
  ((Py.float_of_Z (x mod 2 ^ 53) / Py.float_of_Z (2 ^ 53))%float, g').

(** Two distinct positions, chosen as [sample] does on a short range: the
    second draw is from the positions left after the first. *)
Definition sample2 (n : Z) (g : gen) : (Z * Z) * gen :=
  let (i, g1) := below n g in
  let (j, g2) := below (n - 1) g1 in
  ((i, if j =? i then n - 1 else j), g2).

Definition seeded (seed : Z) : gen := {| tape := []; state := seed mod 2 ^ 64 |}.

Definition script (draws : list Z) : gen := {| tape := draws; state := 0 |}.

#[export] Instance random_gen : RandomGen gen.
Proof.
  refine {| seed_rng := seeded;
            randbelow := below;
            rand_random := unit_float;
            rand_sample2 := sample2;
            randbelow_range := _;
            rand_sample2_range := _ |}.
  - intros n g Hn. unfold below. destruct (next g) as [x g']. cbn.
    apply Z.mod_pos_bound. exact Hn.
  - intros n g Hn. unfold sample2, below.
    destruct (next g) as [x g1]. destruct (next g1) as [y g2]. cbn.
    pose proof (Z.mod_pos_bound x n ltac:(lia)) as Hi.
    pose proof (Z.mod_pos_bound y (n - 1) ltac:(lia)) as Hj.
    destruct (Z.eqb_spec (y mod (n - 1)) (x mod n)); lia.
Defined.

End Scripted.

(** A reference [Numpy]: the mean as the left-to-right sum over the count,
    the percentile by numpy's default linear interpolation between the two
    nearest ranks. *)
Module NumpyRef.

Definition mean (l : list float) : float :=
  (fold_left PrimFloat.add l 0 / Py.float_of_Z (len l))%float.

Definition floor_or_zero (x : float) : Z :=
  match Py.floor x with Ok k => k | Raise _ => 0 end.

Definition lerp (a b : Z) (t : float) : float :=
  let diff_b_a := Py.float_of_Z (b - a) in
  if (t <? 0.5)%float then (Py.float_of_Z a + diff_b_a * t)%float
  else (Py.float_of_Z b - diff_b_a * (1 - t))%float.

Definition percentile (l : list Z) (q : Z) : float :=
  let arr := Py.sorted_asc (fun x => x) l in
  let n := len l in
  let quantile := (Py.float_of_Z q / 100)%float in
  let virtual_index := (Py.float_of_Z (n - 1) * quantile)%float in
  let previous := floor_or_zero virtual_index in
  let next := Z.min (previous + 1) (n - 1) in
  let gamma := (virtual_index - Py.float_of_Z previous)%float in
  lerp (nth (Z.to_nat previous) arr 0) (nth (Z.to_nat next) arr 0) gamma.

#[export] Instance numpy : Numpy := {|
  np_mean := mean;
  np_percentile := percentile
|}.

End NumpyRef.


(* ===================================================================== *)
(** ** Vocabulary of the statements *)
(* ===================================================================== *)

(** A float that compares equal to itself: every value except NaN. *)
Definition not_nan (x : float) : Prop := (x <=? x)%float = true.

(** An accuracy produced by [estimate_performance]: within [0, 0.98]. *)
Definition in_unit_range (x : float) : Prop :=
  (0 <=? x)%float = true /\ (x <=? 0.98)%float = true.

(** The value of [estimate_performance] on a non-empty encoding [l], as a
    function of [l] and of the number [u] that [random()] returned. *)
Definition noisy_performance (l : list string) (u : float) : float :=
  let depth_penalty := (1.0 - Py.float_of_Z (len l) / 20.0)%float in
  let conv_bonus :=
    (Py.float_of_Z (Z.of_nat (count_occ string_dec l "CONV3")) * 0.05
     + Py.float_of_Z (Z.of_nat (count_occ string_dec l "CONV5")) * 0.08)%float in
  let noise := (-0.02 + (0.02 - -0.02) * u)%float in
  Py.min2 0.98 (Py.max2 0.0 (0.70 + conv_bonus * depth_penalty + noise)).

Section Keys.
Context {A : Type}.

(** [not_below key a b]: the key of [a] is not strictly below that of [b];
    [at_least key a b]: the key of [a] is at least that of [b]. *)
Definition not_below (key : A -> float) (a b : A) : Prop :=
  (key a <? key b)%float = false.


Definition keys_not_nan (key : A -> float) (l : list A) : Prop :=
  Forall (fun a => not_nan (key a)) l.

End Keys.

Module Statements.
Import ForgettingEngineNAS.
Section Vocabulary.
Context {G : Type} `{RandomGen G} `{Numpy}.
Implicit Types self : @t G.

(** The engine with both generators moved and everything else as it was. *)
Definition advance (self : t) (ge gd : G) : t :=
  set_domain (set_rng self ge) (NASRefinerDomain.set_rng (domain self) gd).

(** What the two samplers and [mutate_arch] guarantee of an architecture. *)
Definition sampled (a : Architecture) : Prop :=
  in_unit_range (accuracy a) /\ params a = count_params (layers a).

(** [a'] is [a] with its elimination score for generation [gen] written. *)
Definition scored_by (d : NASRefinerDomain.t (G:=G)) (gen : Z)
  (a a' : Architecture) : Prop :=
  exists s, NASRefinerDomain.compute_elimination_score d a gen = Ok s /\
            a' = set_elim_score a s.

(** The paradox predicate of the loop body, on the sorted population. *)
Definition paradoxical_in (self : @t G) (sorted : list Architecture)
  (a : Architecture) : bool :=
  NASRefinerDomain.is_paradoxical (domain self) a
    (map accuracy sorted) (map params sorted).

(** A member appended by the refill: a member of the paradox buffer taken
    as it is, or the child [mutate_arch] made of an elite parent. *)
Definition refilled (self : @t G) (elite : list Architecture)
  (a : Architecture) : Prop :=
  In a (paradox_buffer self) \/
  exists parent s s', In parent elite /\ mutate_arch s parent = Ok (a, s').

(** The best architecture after the comparison with [cb]. *)
Definition better (b cb : Architecture) : Architecture :=
  if (accuracy b <? accuracy cb)%float then cb else b.

(** The hyperparameters, which no method assigns after construction. *)
Definition same_config (self self' : @t G) : Prop :=
  pop_size self' = pop_size self /\
  generations self' = generations self /\
  forget_rate self' = forget_rate self /\
  paradox_rate self' = paradox_rate self /\
  NASRefinerDomain.target_complexity (domain self')
  = NASRefinerDomain.target_complexity (domain self).

(** The best architecture on record has an accuracy that is not NaN. *)
Definition best_is_number (self : @t G) : Prop :=
  exists b, best_overall self = Some b /\ not_nan (accuracy b).

(** What every generation of a run finds: the hyperparameters of the start,
    a stored population of [pop_size] members and a best architecture. *)
Definition loop_invariant self (s : @t G) : Prop :=
  same_config self s /\
  len (population s) = pop_size self /\
  exists b, best_overall s = Some b.

(** [n] remove mutations in a row on one encoding. *)
Fixpoint remove_times (n : nat) (l : list string) (g : G)
  : result (list string * G) :=
  match n with
  | O => Ok (l, g)
  | S n' =>
      '(l1, g1) <- apply_mutation remove l g ;; remove_times n' l1 g1
  end.

(** [n] calls of [mutate_arch] in a row, each on the previous child. *)
Fixpoint mutate_times (n : nat) (self : @t G) (a : Architecture)
  : result (Architecture * @t G) :=
  match n with
  | O => Ok (a, self)
  | S n' =>
      '(a1, self1) <- mutate_arch self a ;; mutate_times n' self1 a1
  end.



Definition rmap {A B} (f : A -> B) (r : result A) : result B :=
  x <- r ;; Ok (f x).

(** [n] add mutations in a row on one encoding. *)
Fixpoint add_times (n : nat) (l : list string) (g : G)
  : result (list string * G) :=
  match n with
  | O => Ok (l, g)
  | S n' =>
      '(l1, g1) <- apply_mutation add l g ;; add_times n' l1 g1
  end.

(** An architecture as the samplers and [mutate_arch] construct it: its
    parameter count is the cost of its layers, its accuracy lies in
    [0, 0.98], and its [novelty_score] is the default 0.0. *)
Definition constructed (a : Architecture) : Prop :=
  sampled a /\ novelty_score a = 0%float.

(** The stored population and the best architecture on record are
    constructed ones. *)
Definition all_constructed (s : @t G) : Prop :=
  Forall constructed (population s) /\
  exists b, best_overall s = Some b /\ constructed b.

(** The exceptions [run] can raise. *)
Definition run_error (e : pyerr) : Prop :=
  e = ValueError \/ e = IndexError \/ e = ZeroDivisionError \/
  e = OverflowError.

(** The capacity as the specification words it:
    [max(1, round(paradox_rate * pop_size))]. *)
Definition rounded_capacity (self : @t G) : result Z :=
  p <- Py.to_float (pop_size self) ;;
  k <- Py.round (paradox_rate self * p)%float ;;
  Ok (Z.max 1 k).

End Vocabulary.
End Statements.

(* ===================================================================== *)
(** ** Concrete engines *)
(* ===================================================================== *)

Module Concrete.
Import ForgettingEngineNAS Statements Scripted NumpyRef.

(** The engine the constructor returns, for any state [g] of its
    generator. *)
Definition engine_with (d : @NASRefinerDomain.t gen) (pop_size generations : Z)
  (forget_rate paradox_rate : float) (g : gen) : @t gen :=
  {| domain := d; pop_size := pop_size; generations := generations;
     forget_rate := forget_rate; paradox_rate := paradox_rate; rng := g;
     population := []; paradox_buffer := []; best_overall := None |}.

Definition domain_with (g : gen) : @NASRefinerDomain.t gen :=
  {| NASRefinerDomain.target_complexity := 1000000; NASRefinerDomain.rng := g |}.

Definition domain42 : @NASRefinerDomain.t gen :=
  NASRefinerDomain.__init__ 1000000 42.

Definition unwrap {A} (r : result A) (default : A) : A :=
  match r with Ok a => a | Raise _ => default end.

Definition no_selection : selection :=
  {| sel_sorted := []; sel_elite := []; sel_eliminated := [];
     sel_candidates := [] |}.

(** The raw draw that [random()] turns into 0.5. *)
Definition half : Z := 2 ^ 52.

Definition parent4 : Architecture :=
  new_Architecture ["CONV3"; "CONV5"; "POOL"; "DROP"] 151500.

(** Two states of the domain's generator: the next [random()] is 0.0 in the
    first and 0.5 in the second. *)
Definition domain_next_zero : @NASRefinerDomain.t gen :=
  domain_with (script [0]).

Definition domain_next_half : @NASRefinerDomain.t gen :=
  domain_with (script [half]).





(** [pop_size = 3] with [forget_rate = 1.5]: the product is [-1.5]. *)
Definition engine_fr15 : @t gen := engine_with domain42 3 1 1.5 0.15 (seeded 42).

(** [pop_size = 4], two generations. *)
Definition engine4 : @t gen := engine_with domain42 4 2 0.35 0.15 (seeded 42).

Definition engine4_started : @t gen :=
  Eval vm_compute in unwrap (run_init engine4) engine4.

Definition engine4_gen1 : @t gen :=
  Eval vm_compute in unwrap (run_generations 1 engine4) engine4.

Definition engine4_step2_population : list Architecture :=
  Eval vm_compute in
    unwrap (rmap fst (generation_step 2 engine4_gen1)) [].

Definition engine4_gen2 : @t gen :=
  Eval vm_compute in
    unwrap (rmap snd (generation_step 2 engine4_gen1)) engine4.

Definition engine4_best : Architecture :=
  Eval vm_compute in
    match best_overall engine4_gen2 with Some b => b | None => parent4 end.



(** [pop_size = 0]; [pop_size = 1] with [forget_rate = 0.9], whose
    [keep_count] is [int(0.0999...) = 0]; [pop_size = 1] with
    [forget_rate = 0.5], whose [keep_count] is [int(0.5) = 0];
    [pop_size = 10] with [forget_rate = 0.9], where [1 - 0.9] is
    [0.09999999999999998] and [keep_count] is [int(0.9999999999999998) = 0]. *)
Definition engine_pop0 : @t gen :=
  engine_with domain42 0 100 0.35 0.15 (seeded 42).

Definition engine_keep0 : @t gen :=
  engine_with domain42 1 100 0.9 0.15 (seeded 42).

Definition engine_ten_ninety : @t gen :=
  engine_with domain42 10 100 0.9 0.15 (seeded 42).

(** The default rates with [pop_size = 4], over a domain of target
    complexity 0; and with a [paradox_rate] that is NaN. *)
Definition engine_target0 : @t gen :=
  engine_with {| NASRefinerDomain.target_complexity := 0;
                 NASRefinerDomain.rng := seeded 42 |}
    4 2 0.35 0.15 (seeded 42).

Definition engine_rate_nan : @t gen :=
  engine_with domain42 4 2 0.35 nan (seeded 42).

Definition engine_pop1 : @t gen :=
  engine_with domain42 1 100 0.5 0.15 (seeded 42).

(** Eight initial architectures of five layers, six with convolutions and
    two of [DROP] layers only, every noise draw 0.5; [paradox_rate = 0.2], so
    [paradox_rate * pop_size = 1.6]. *)
Definition draws_conv : list Z := [0; 0; 1; 2; 3; 1].
Definition draws_drop : list Z := [0; 3; 3; 3; 3; 3].

Definition engine8 : @t gen :=
  engine_with (domain_with (script (repeat half 8))) 8 1 0.35 0.2
    (script (draws_conv ++ draws_drop ++ draws_conv ++ draws_conv
             ++ draws_drop ++ draws_conv ++ draws_conv ++ draws_conv)).

Definition engine8_started : @t gen :=
  Eval vm_compute in unwrap (run_init engine8) engine8.

Definition engine8_step1_population : list Architecture :=
  Eval vm_compute in
    unwrap (rmap fst (generation_step 1 engine8_started)) [].

Definition engine8_gen1 : @t gen :=
  Eval vm_compute in
    unwrap (rmap snd (generation_step 1 engine8_started)) engine8.

(** An engine whose generator draws mutation 2, [remove], then position 0. *)
Definition engine_remove : @t gen :=
  engine_with domain42 50 100 0.35 0.15 (script [2; 0]).

(** The draws of [random.Random(7)] for the first architecture: a depth of
    [5 + 10] layers and the fifteen operation choices; and the first
    [random()] of [random.Random(42)], as its numerator over 2^53. *)
Definition draws_seed7 : list Z :=
  [10; 1; 3; 0; 0; 0; 2; 0; 1; 0; 0; 3; 3; 0; 1; 0].

Definition engine_seed7 : @t gen :=
  engine_with (domain_with (script [5759444582531269])) 1 0 0.35 0.15
    (script draws_seed7).

(** The engine of [forget_rate = 1.5] after the two statements before the
    loop, and what [select] computes in its first generation:
    [keep_count = -1], so the slices are [population[:-1]] and
    [population[-1:]]. *)
Definition engine_fr15_started : @t gen :=
  Eval vm_compute in unwrap (run_init engine_fr15) engine_fr15.

Definition engine_fr15_selection : selection :=
  Eval vm_compute in
    unwrap (rmap fst (select 1 engine_fr15_started)) no_selection.

Definition engine_fr15_selected : @t gen :=
  Eval vm_compute in
    unwrap (rmap snd (select 1 engine_fr15_started)) engine_fr15.

(** Two initial architectures of five layers, one of [DROP] layers only and
    one with convolutions, and [forget_rate = 0.9], so [keep_count] is
    [int(2 * 0.0999...) = 0]; the refill draws [random() = 0.0] and position 0
    twice. *)
Definition engine_buffer_only : @t gen :=
  engine_with (domain_with (script [half; half])) 2 1 0.9 0.15
    (script (draws_drop ++ draws_conv ++ [0; 0; 0; 0])).

Definition engine_buffer_only_started : @t gen :=
  Eval vm_compute in unwrap (run_init engine_buffer_only) engine_buffer_only.

Definition engine_buffer_only_population : list Architecture :=
  Eval vm_compute in
    unwrap (rmap fst (generation_step 1 engine_buffer_only_started)) [].

Definition engine_buffer_only_gen1 : @t gen :=
  Eval vm_compute in
    unwrap (rmap snd (generation_step 1 engine_buffer_only_started))
      engine_buffer_only.

End Concrete.

(* ===================================================================== *)
(** ** Facts about binary64 comparisons *)
(* ===================================================================== *)

Module FloatFacts.

Lemma SFcompare_refl_r f1 f2 c :
  SFcompare f1 f2 = Some c -> SFcompare f2 f2 = Some Eq.
Proof.
  intros Hc.
  destruct f2 as [s | s | | s m e]; cbn.
  - reflexivity.
  - destruct s; reflexivity.
  - destruct f1; discriminate Hc.
  - rewrite Z.compare_refl, Pos.compare_cont_refl. destruct s; reflexivity.
Qed.

Lemma SFcompare_refl_l f1 f2 c :
  SFcompare f1 f2 = Some c -> SFcompare f1 f1 = Some Eq.
Proof.
  intros Hc.
  destruct f1 as [s | s | | s m e]; cbn.
  - reflexivity.
  - destruct s; reflexivity.
  - discriminate Hc.
  - rewrite Z.compare_refl, Pos.compare_cont_refl. destruct s; reflexivity.
Qed.

Lemma ltb_leb x y : (x <? y)%float = true -> (x <=? y)%float = true.
Proof.
  rewrite ltb_spec, leb_spec. unfold SFltb, SFleb.
  destruct (SFcompare (Prim2SF x) (Prim2SF y)) as [[ | | ] | ];
    intros Hlt; (reflexivity || discriminate Hlt).
Qed.

Lemma ltb_not_nan_r x y : (x <? y)%float = true -> not_nan y.
Proof.
  unfold not_nan. rewrite ltb_spec, leb_spec. unfold SFltb, SFleb.
  destruct (SFcompare (Prim2SF x) (Prim2SF y)) as [c | ] eqn:Hc;
    [ | discriminate ].
  intros _. rewrite (SFcompare_refl_r _ _ _ Hc). reflexivity.
Qed.

Lemma ltb_not_nan_l x y : (x <? y)%float = true -> not_nan x.
Proof.
  unfold not_nan. rewrite ltb_spec, leb_spec. unfold SFltb, SFleb.
  destruct (SFcompare (Prim2SF x) (Prim2SF y)) as [c | ] eqn:Hc;
    [ | discriminate ].
  intros _. rewrite (SFcompare_refl_l _ _ _ Hc). reflexivity.
Qed.

Lemma leb_not_nan_r x y : (x <=? y)%float = true -> not_nan y.
Proof.
  unfold not_nan. rewrite !leb_spec. unfold SFleb.
  destruct (SFcompare (Prim2SF x) (Prim2SF y)) as [c | ] eqn:Hc;
    [ | discriminate ].
  intros _. rewrite (SFcompare_refl_r _ _ _ Hc). reflexivity.
Qed.

Lemma SFcompare_antisym f1 f2 :
  SFcompare f2 f1 = option_map CompOpp (SFcompare f1 f2).
Proof.
  destruct f1 as [s1 | s1 | | s1 m1 e1], f2 as [s2 | s2 | | s2 m2 e2]; cbn;
    try reflexivity;
    try (destruct s1; reflexivity);
    try (destruct s2; reflexivity);
    try (destruct s1, s2; reflexivity).
  change (Pos.compare_cont Eq m2 m1) with (Pos.compare m2 m1).
  change (Pos.compare_cont Eq m1 m2) with (Pos.compare m1 m2).
  rewrite (Z.compare_antisym e1 e2), (Pos.compare_antisym m1 m2).
  destruct s1, s2; try reflexivity;
    destruct (e1 ?= e2); cbn; try reflexivity;
    destruct (m1 ?= m2)%positive; reflexivity.
Qed.

(** A strict comparison excludes the equality test and its converse. *)
Lemma ltb_eqb_false x y : (x <? y)%float = true -> (y =? x)%float = false.
Proof.
  rewrite ltb_spec, FloatAxioms.eqb_spec. unfold SFltb, SFeqb.
  rewrite (SFcompare_antisym (Prim2SF x) (Prim2SF y)).
  destruct (SFcompare (Prim2SF x) (Prim2SF y)) as [[ | | ] | ]; cbn;
    intros Hlt; (reflexivity || discriminate Hlt).
Qed.

Lemma ltb_asym x y : (x <? y)%float = true -> (y <? x)%float = false.
Proof.
  rewrite !ltb_spec. unfold SFltb.
  rewrite (SFcompare_antisym (Prim2SF x) (Prim2SF y)).
  destruct (SFcompare (Prim2SF x) (Prim2SF y)) as [[ | | ] | ]; cbn;
    intros Hlt; (reflexivity || discriminate Hlt).
Qed.

Ltac cmp_cases :=
  repeat match goal with
  | |- context [Pos.compare_cont Eq ?a ?b] =>
      change (Pos.compare_cont Eq a b) with (Pos.compare a b)
  | |- context [Z.compare ?a ?b] => destruct (Z.compare_spec a b)
  | |- context [Pos.compare ?a ?b] => destruct (Pos.compare_spec a b)
  end.

(** "Not below" is transitive through a value that is not NaN. *)
Lemma SFltb_false_trans f1 f2 f3 :
  f2 <> S754_nan ->
  SFltb f1 f2 = false -> SFltb f2 f3 = false -> SFltb f1 f3 = false.
Proof.
  unfold SFltb.
  destruct f1 as [s1 | s1 | | s1 m1 e1], f2 as [s2 | s2 | | s2 m2 e2],
           f3 as [s3 | s3 | | s3 m3 e3];
    intros Hn; try (exfalso; apply Hn; reflexivity); clear Hn; cbn;
    try reflexivity;
    try (destruct s1; cbn; reflexivity || discriminate);
    try (destruct s1, s2; cbn; reflexivity || discriminate).
  all: destruct s1, s2, s3; cbn; try reflexivity; try discriminate;
       cmp_cases; cbn; intros; subst;
       try reflexivity; try discriminate; try lia.
Qed.

Lemma not_nan_SF x : not_nan x -> Prim2SF x <> S754_nan.
Proof.
  unfold not_nan. rewrite leb_spec. intros Hx Hn. rewrite Hn in Hx.
  discriminate Hx.
Qed.

Lemma ltb_false_trans x y z :
  not_nan y ->
  (x <? y)%float = false -> (y <? z)%float = false -> (x <? z)%float = false.
Proof.
  intros Hy. rewrite !ltb_spec.
  apply SFltb_false_trans, not_nan_SF, Hy.
Qed.

(** Between two values that are not NaN, "not below" is "at least". *)
Lemma ltb_false_leb x y :
  not_nan x -> not_nan y ->
  (x <? y)%float = false -> (y <=? x)%float = true.
Proof.
  intros Hx Hy. apply not_nan_SF in Hx, Hy.
  rewrite ltb_spec, leb_spec. unfold SFltb, SFleb.
  rewrite (SFcompare_antisym (Prim2SF x) (Prim2SF y)).
  destruct (Prim2SF x) as [s1 | s1 | | s1 m1 e1];
    try (exfalso; apply Hx; reflexivity);
    destruct (Prim2SF y) as [s2 | s2 | | s2 m2 e2];
    try (exfalso; apply Hy; reflexivity); cbn;
    try reflexivity;
    try (destruct s1; cbn; reflexivity || discriminate);
    try (destruct s2; cbn; reflexivity || discriminate);
    try (destruct s1, s2; cbn; reflexivity || discriminate).
  destruct s1, s2; cbn; try reflexivity; try discriminate;
    cmp_cases; cbn; intros; try reflexivity; try discriminate.
Qed.

(** [min(0.98, max(0.0, x))] lies in [0, 0.98] for every float [x], NaN and
    the infinities included. *)
Lemma clamp_range x :
  (0 <=? Py.min2 0.98 (Py.max2 0.0 x))%float = true /\
  (Py.min2 0.98 (Py.max2 0.0 x) <=? 0.98)%float = true.
Proof.
  unfold Py.min2, Py.max2.
  destruct (0 <? x)%float eqn:H0.
  - destruct (x <? 0.98)%float eqn:H1.
    + split; apply ltb_leb; assumption.
    + split; reflexivity.
  - split; reflexivity.
Qed.


End FloatFacts.

(* ===================================================================== *)
(** ** Facts about the list operations *)
(* ===================================================================== *)

Module ListFacts.
Section Sorting.
Context {A : Type}.

Lemma insert_desc_perm (key : A -> float) x l :
  Permutation (Py.insert_desc key x l) (x :: l).
Proof.
  induction l as [ | y l IH]; cbn.
  - apply Permutation_refl.
  - destruct (key x <? key y)%float.
    + eapply perm_trans; [ apply perm_skip, IH | apply perm_swap ].
    + apply Permutation_refl.
Qed.

Lemma sorted_desc_perm (key : A -> float) l :
  Permutation (Py.sorted_desc key l) l.
Proof.
  induction l as [ | x l IH]; cbn.
  - apply perm_nil.
  - eapply perm_trans; [ apply insert_desc_perm | apply perm_skip, IH ].
Qed.

Lemma sorted_desc_length (key : A -> float) l :
  length (Py.sorted_desc key l) = length l.
Proof. apply Permutation_length, sorted_desc_perm. Qed.







Lemma insert_asc_perm (key : A -> Z) x l :
  Permutation (Py.insert_asc key x l) (x :: l).
Proof.
  induction l as [ | y l IH]; cbn.
  - apply Permutation_refl.
  - destruct (key y <? key x).
    + eapply perm_trans; [ apply perm_skip, IH | apply perm_swap ].
    + apply Permutation_refl.
Qed.

Lemma sorted_asc_perm (key : A -> Z) l :
  Permutation (Py.sorted_asc key l) l.
Proof.
  induction l as [ | x l IH]; cbn.
  - apply perm_nil.
  - eapply perm_trans; [ apply insert_asc_perm | apply perm_skip, IH ].
Qed.

Lemma insert_asc_strongly (key : A -> Z) x l :
  StronglySorted (fun a b => key a <= key b) l ->
  StronglySorted (fun a b => key a <= key b) (Py.insert_asc key x l).
Proof.
  induction l as [ | y l IH]; intros Hs; cbn.
  - repeat constructor.
  - inversion Hs as [ | ? ? Hs' Hall]; subst.
    destruct (Z.ltb_spec (key y) (key x)) as [Hyx | Hxy].
    + constructor; [ apply IH, Hs' | ].
      eapply Permutation_Forall.
      * apply Permutation_sym, insert_asc_perm.
      * constructor; [ lia | exact Hall ].
    + constructor; [ exact Hs | ].
      constructor; [ exact Hxy | ].
      eapply Forall_impl; [ | exact Hall ].
      cbn. intros z Hz. lia.
Qed.

Lemma sorted_asc_strongly (key : A -> Z) l :
  StronglySorted (fun a b => key a <= key b) (Py.sorted_asc key l).
Proof.
  induction l as [ | x l IH]; cbn.
  - constructor.
  - apply insert_asc_strongly, IH.
Qed.

Lemma slice_app (k : Z) (l : list A) :
  Py.slice_to k l ++ Py.slice_from k l = l.
Proof. apply firstn_skipn. Qed.



(** A slice [l[:k]] with [k >= 0] has at most [k] members. *)
Lemma slice_to_bound (k : Z) (l : list A) :
  0 <= k -> len (Py.slice_to k l) <= k.
Proof.
  unfold Py.slice_to, Py.slice_index, len. intros Hk.
  destruct (Z.ltb_spec k 0) as [Hneg | _]; [ lia | ].
  rewrite length_firstn. lia.
Qed.

Lemma slice_to_incl (k : Z) (l : list A) x :
  In x (Py.slice_to k l) -> In x l.
Proof.
  intros Hx. rewrite <- (slice_app k l). apply in_or_app. left. exact Hx.
Qed.

Lemma slice_to_nonempty (k : Z) (l : list A) :
  1 <= k -> l <> [] -> Py.slice_to k l <> [].
Proof.
  unfold Py.slice_to, Py.slice_index. intros Hk Hl.
  destruct (Z.ltb_spec k 0) as [Hneg | _]; [ lia | ].
  destruct l as [ | x l]; [ congruence | ].
  cbn [length]. destruct (Z.to_nat k) as [ | n] eqn:Hn; [ lia | ].
  cbn. discriminate.
Qed.

End Sorting.
End ListFacts.

(* ===================================================================== *)
(** ** Facts about the draws and the domain *)
(* ===================================================================== *)

Lemma in_unit_range_not_nan x : in_unit_range x -> not_nan x.
Proof. intros [H0 _]. eapply FloatFacts.leb_not_nan_r, H0. Qed.

Section DrawFacts.
Context {G : Type} `{RandomGen G}.

Lemma getitem_ok {A} (l : list A) i :
  0 <= i < len l -> exists x, Py.getitem l i = Ok x /\ In x l.
Proof.
  unfold Py.getitem, len. intros Hi.
  destruct (Z.leb_spec 0 i); [ | lia ].
  destruct (Z.ltb_spec i (Z.of_nat (length l))); [ | lia ]. cbn.
  destruct (nth_error l (Z.to_nat i)) as [x | ] eqn:Hx.
  - exists x. split; [ reflexivity | eapply nth_error_In, Hx ].
  - apply nth_error_None in Hx. lia.
Qed.

Lemma setitem_ok {A} (l : list A) i x :
  0 <= i < len l ->
  exists l', Py.setitem l i x = Ok l' /\ length l' = length l.
Proof.
  unfold Py.setitem, len. intros Hi.
  destruct (Z.leb_spec 0 i); [ | lia ].
  destruct (Z.ltb_spec i (Z.of_nat (length l))); [ | lia ]. cbn [andb].
  eexists. split; [ reflexivity | ].
  rewrite length_app, length_cons, length_firstn, length_skipn. lia.
Qed.

Lemma delitem_ok {A} (l : list A) i :
  0 <= i < len l ->
  exists l', Py.delitem l i = Ok l' /\ S (length l') = length l.
Proof.
  unfold Py.delitem, len. intros Hi.
  destruct (Z.leb_spec 0 i); [ | lia ].
  destruct (Z.ltb_spec i (Z.of_nat (length l))); [ | lia ]. cbn [andb].
  eexists. split; [ reflexivity | ].
  rewrite length_app, length_firstn, length_skipn. lia.
Qed.

Lemma insert_length {A} (l : list A) i x :
  length (Py.insert l i x) = S (length l).
Proof.
  unfold Py.insert.
  rewrite length_app, length_cons, length_firstn, length_skipn. lia.
Qed.

Lemma choice_ok {A} (l : list A) (g : G) :
  l <> [] ->
  exists x, choice l g = Ok (x, snd (randbelow (len l) g)) /\ In x l.
Proof.
  intros Hl. unfold choice.
  destruct l as [ | a l]; [ congruence | ].
  pose proof (randbelow_range (len (a :: l)) g) as Hr.
  fold (len (a :: l)).
  destruct (randbelow (len (a :: l)) g) as [i g']. cbn [fst snd] in *.
  destruct (getitem_ok (a :: l) i) as [x [Hx Hin]].
  - apply Hr. unfold len. cbn [length]. lia.
  - exists x. rewrite Hx. split; [ reflexivity | exact Hin ].
Qed.

Lemma choice_in {A} (l : list A) (g : G) x g' :
  choice l g = Ok (x, g') -> In x l.
Proof.
  unfold choice. destruct l as [ | a l]; [ discriminate | ].
  destruct (randbelow (Z.of_nat (length (a :: l))) g) as [i g1].
  unfold Py.getitem.
  destruct ((0 <=? i) && (i <? Z.of_nat (length (a :: l)))); [ | discriminate ].
  destruct (nth_error (a :: l) (Z.to_nat i)) as [y | ] eqn:Hy;
    cbn [rbind]; [ | discriminate ].
  intros Hx. injection Hx as <- <-. eapply nth_error_In, Hy.
Qed.

Lemma choice_empty {A} (g : G) : choice (@nil A) g = Raise IndexError.
Proof. reflexivity. Qed.

Lemma randrange_ok n (g : G) : 0 < n -> randrange n g = Ok (randbelow n g).
Proof.
  intros Hn. unfold randrange.
  destruct (Z.ltb_spec 0 n); [ reflexivity | lia ].
Qed.

Lemma randint_ok a b (g : G) :
  a <= b ->
  exists v, randint a b g = Ok (v, snd (randbelow (b - a + 1) g)) /\
            a <= v <= b.
Proof.
  intros Hab. unfold randint.
  destruct (Z.ltb_spec 0 (b - a + 1)); [ | lia ].
  pose proof (randbelow_range (b - a + 1) g ltac:(lia)) as Hr.
  destruct (randbelow (b - a + 1) g) as [i g']. cbn [fst snd] in *.
  exists (a + i). split; [ reflexivity | lia ].
Qed.

Lemma ops_nonempty : ops <> [].
Proof. discriminate. Qed.

Lemma draw_layers_ok n (g : G) :
  exists l g', NASRefinerDomain.draw_layers n g = Ok (l, g') /\
               length l = n /\ Forall (fun op => In op ops) l.
Proof.
  revert g. induction n as [ | n IH]; intros g;
    cbn [NASRefinerDomain.draw_layers].
  - exists [], g. repeat split. constructor.
  - destruct (choice_ok ops g ops_nonempty) as [op [Hop Hin]].
    rewrite Hop. cbn [rbind].
    destruct (IH (snd (randbelow (len ops) g))) as [l [g' [Hl [Hlen Hall]]]].
    rewrite Hl. cbn [rbind].
    exists (op :: l), g'. repeat split.
    + cbn [length]. congruence.
    + constructor; assumption.
Qed.

(** [estimate_performance] touches nothing of the domain but its generator,
    and its value lies in [0, 0.98]. *)
Lemma estimate_performance_spec (d : NASRefinerDomain.t) (arch : Architecture) :
  in_unit_range (fst (NASRefinerDomain.estimate_performance d arch)) /\
  exists g, snd (NASRefinerDomain.estimate_performance d arch)
            = NASRefinerDomain.set_rng d g.
Proof.
  unfold NASRefinerDomain.estimate_performance.
  destruct (is_empty (layers arch)).
  - split; [ split; reflexivity | ].
    exists (NASRefinerDomain.rng d). destruct d; reflexivity.
  - unfold uniform.
    destruct (rand_random (NASRefinerDomain.rng d)) as [u g]. cbn [fst snd].
    split; [ apply FloatFacts.clamp_range | ].
    exists g. reflexivity.
Qed.

End DrawFacts.

(* ===================================================================== *)
(** ** Facts about the engine's methods *)
(* ===================================================================== *)

Module EngineFacts.
Import ForgettingEngineNAS Statements.
Section Facts.
Context {G : Type} `{RandomGen G} `{Numpy}.
Implicit Types self : @t G.
Implicit Types d : @NASRefinerDomain.t G.

Lemma advance_id self :
  self = advance self (rng self) (NASRefinerDomain.rng (domain self)).
Proof. destruct self as [[tc gd] ps gs fr pr ge pop buf best]. reflexivity. Qed.

Lemma _create_random_arch_ok self :
  exists a ge gd,
    _create_random_arch self = Ok (a, advance self ge gd) /\
    5 <= len (layers a) <= 20 /\ sampled a.
Proof.
  unfold _create_random_arch.
  destruct (randint_ok 5 20 (rng self) ltac:(lia)) as [v [Hv Hrange]].
  rewrite Hv. cbn [rbind].
  destruct (draw_layers_ok (Z.to_nat v) (snd (randbelow (20 - 5 + 1) (rng self))))
    as [l [g2 [Hl [Hlen _]]]].
  rewrite Hl. cbn [rbind].
  destruct (estimate_performance_spec (domain self)
              (new_Architecture l (count_params l))) as [Hacc [gd Hgd]].
  destruct (NASRefinerDomain.estimate_performance (domain self)
              (new_Architecture l (count_params l))) as [acc d].
  cbn [fst snd] in Hacc, Hgd. subst d.
  exists (set_accuracy (new_Architecture l (count_params l)) acc), g2, gd.
  split; [ reflexivity | ].
  split; [ unfold len; cbn; lia | ].
  split; [ exact Hacc | reflexivity ].
Qed.

Lemma apply_mutation_ok (m : mutation) (l : list string) (g : G) :
  l <> [] ->
  exists l' g',
    apply_mutation m l g = Ok (l', g') /\
    match m with
    | swap | replace => len l' = len l
    | add => len l' = len l + 1
    | remove =>
        if 3 <? len l then len l' = len l - 1 else l' = l /\ g' = g
    end.
Proof.
  intros Hl.
  assert (Hpos : 0 < len l).
  { unfold len. destruct l; [ congruence | cbn [length]; lia ]. }
  destruct m; unfold apply_mutation.
  - (* swap *)
    destruct (Z.ltb_spec 1 (len l)) as [H1 | H1].
    + pose proof (rand_sample2_range (len l) g ltac:(lia)) as [Hi [Hj _]].
      destruct (rand_sample2 (len l) g) as [[i j] g1]. cbn [fst snd] in Hi, Hj.
      destruct (getitem_ok l j Hj) as [lj [Hlj _]]. rewrite Hlj. cbn [rbind].
      destruct (getitem_ok l i Hi) as [li [Hli _]]. rewrite Hli. cbn [rbind].
      destruct (setitem_ok l i lj Hi) as [l1 [Hl1 Hlen1]].
      rewrite Hl1. cbn [rbind].
      destruct (setitem_ok l1 j li) as [l2 [Hl2 Hlen2]].
      { unfold len in *. lia. }
      rewrite Hl2. cbn [rbind].
      exists l2, g1. split; [ reflexivity | unfold len; lia ].
    + exists l, g. split; reflexivity.
  - (* add *)
    rewrite randrange_ok by lia.
    destruct (randbelow (len l + 1) g) as [pos g1]. cbn [rbind].
    destruct (choice_ok ops g1 ops_nonempty) as [op [Hop _]].
    rewrite Hop. cbn [rbind].
    eexists _, _. split; [ reflexivity | ].
    unfold len. rewrite insert_length. lia.
  - (* remove *)
    destruct (Z.ltb_spec 3 (len l)) as [H3 | H3].
    + rewrite randrange_ok by lia.
      pose proof (randbelow_range (len l) g Hpos) as Hr.
      destruct (randbelow (len l) g) as [pos g1]. cbn [fst] in Hr.
      cbn [rbind].
      destruct (delitem_ok l pos Hr) as [l1 [Hl1 Hlen1]].
      rewrite Hl1. cbn [rbind].
      exists l1, g1. split; [ reflexivity | unfold len; lia ].
    + exists l, g. repeat split.
  - (* replace *)
    rewrite randrange_ok by lia.
    pose proof (randbelow_range (len l) g Hpos) as Hr.
    destruct (randbelow (len l) g) as [pos g1]. cbn [fst] in Hr.
    cbn [rbind].
    destruct (choice_ok ops g1 ops_nonempty) as [op [Hop _]].
    rewrite Hop. cbn [rbind].
    destruct (setitem_ok l pos op Hr) as [l1 [Hl1 Hlen1]].
    rewrite Hl1. cbn [rbind].
    eexists _, _. split; [ reflexivity | unfold len; lia ].
Qed.

(** [mutate_arch] never raises; it moves the two generators only; the child
    is at most one layer shorter than its parent, and shorter only when the
    parent has more than three layers. *)
Lemma mutate_arch_ok self (parent : Architecture) :
  exists child ge gd,
    mutate_arch self parent = Ok (child, advance self ge gd) /\
    sampled child /\
    len (layers parent) - 1 <= len (layers child) /\
    (len (layers child) < len (layers parent) -> 3 < len (layers parent)).
Proof.
  unfold mutate_arch.
  destruct (layers parent) as [ | op0 l0] eqn:Hlayers; cbn [is_empty].
  - destruct (_create_random_arch_ok self) as [a [ge [gd [Ha [Hlen Hs]]]]].
    exists a, ge, gd. split; [ exact Ha | ].
    split; [ exact Hs | ].
    unfold len in *. cbn [length] in *. split; lia.
  - destruct (choice_ok [swap; add; remove; replace] (rng self))
      as [m [Hm _]]; [ discriminate | ].
    rewrite Hm. cbn [rbind].
    destruct (apply_mutation_ok m (op0 :: l0)
                (snd (randbelow (len [swap; add; remove; replace]) (rng self))))
      as [l' [g2 [Hl' Hlen]]]; [ discriminate | ].
    rewrite Hl'. cbn [rbind].
    destruct (estimate_performance_spec (domain self)
                (new_Architecture l' (count_params l'))) as [Hacc [gd Hgd]].
    destruct (NASRefinerDomain.estimate_performance (domain self)
                (new_Architecture l' (count_params l'))) as [acc d].
    cbn [fst snd] in Hacc, Hgd. subst d.
    exists (set_accuracy (new_Architecture l' (count_params l')) acc), g2, gd.
    split; [ reflexivity | ].
    split; [ split; [ exact Hacc | reflexivity ] | ].
    cbn [layers set_accuracy new_Architecture].
    destruct m; try (split; lia).
    destruct (Z.ltb_spec 3 (len (op0 :: l0))).
    + split; lia.
    + destruct Hlen as [-> _]. split; lia.
Qed.

Lemma create_population_ok (n : nat) self :
  exists pop ge gd,
    create_population n self = Ok (pop, advance self ge gd) /\
    length pop = n /\
    Forall (fun a => 5 <= len (layers a) <= 20 /\ sampled a) pop.
Proof.
  revert self. induction n as [ | n IH]; intros self;
    cbn [create_population].
  - exists [], (rng self), (NASRefinerDomain.rng (domain self)).
    rewrite <- advance_id. repeat split. constructor.
  - destruct (_create_random_arch_ok self) as [a [ge [gd [Ha [Hlen Hs]]]]].
    rewrite Ha. cbn [rbind].
    destruct (IH (advance self ge gd)) as [pop [ge' [gd' [Hpop [Hn Hall]]]]].
    rewrite Hpop. cbn [rbind].
    exists (a :: pop), ge', gd'. split; [ reflexivity | ].
    split; [ cbn [length]; congruence | ].
    constructor; [ split; assumption | exact Hall ].
Qed.

Lemma fold_max_in {A} (key : A -> float) (l : list A) (x : A) :
  let r := fold_left (fun best item =>
                        if (key best <? key item)%float then item else best)
                     l x in
  r = x \/ In r l.
Proof.
  revert x. induction l as [ | y l IH]; intros x; cbn.
  - left. reflexivity.
  - destruct (key x <? key y)%float.
    + destruct (IH y) as [-> | Hin]; [ right; left; reflexivity | ].
      right. right. exact Hin.
    + destruct (IH x) as [-> | Hin]; [ left; reflexivity | ].
      right. right. exact Hin.
Qed.

Lemma max_by_ok {A} (key : A -> float) (l : list A) :
  l <> [] -> exists x, Py.max_by key l = Ok x /\ In x l.
Proof.
  destruct l as [ | x l]; [ congruence | ]. intros _.
  cbn [Py.max_by]. eexists. split; [ reflexivity | ].
  destruct (fold_max_in key l x) as [-> | Hin]; [ left | right ]; auto.
Qed.

Lemma max_by_in {A} (key : A -> float) (l : list A) x :
  Py.max_by key l = Ok x -> In x l.
Proof.
  destruct l as [ | y l]; [ discriminate | ]. intros Hx.
  destruct (max_by_ok key (y :: l)) as [x' [Hx' Hin]]; [ discriminate | ].
  congruence.
Qed.

Lemma fold_max_greatest {A} (key : A -> float) (l : list A) (x : A) :
  not_nan (key x) ->
  keys_not_nan key l ->
  let r := fold_left (fun best item =>
                        if (key best <? key item)%float then item else best)
                     l x in
  not_below key r x /\ Forall (not_below key r) l.
Proof.
  revert x. induction l as [ | y l IH]; intros x Hx Hl; cbn.
  - split; [ | constructor ].
    unfold not_below.
    destruct (key x <? key x)%float eqn:E; [ | reflexivity ].
    apply FloatFacts.ltb_asym in E as E'. congruence.
  - inversion Hl as [ | ? ? Hy Hl']; subst.
    destruct (key x <? key y)%float eqn:Hxy.
    + destruct (IH y Hy Hl') as [Hry Hrl].
      split; [ | constructor; assumption ].
      unfold not_below in *.
      eapply FloatFacts.ltb_false_trans;
        [ exact Hy | exact Hry | apply FloatFacts.ltb_asym, Hxy ].
    + destruct (IH x Hx Hl') as [Hrx Hrl].
      split; [ exact Hrx | constructor; [ | exact Hrl ] ].
      unfold not_below in *.
      eapply FloatFacts.ltb_false_trans; [ exact Hx | exact Hrx | exact Hxy ].
Qed.

(** [max(l, key=key)] is a member that no member strictly exceeds. *)
Lemma max_by_greatest {A} (key : A -> float) (l : list A) x :
  keys_not_nan key l ->
  Py.max_by key l = Ok x -> Forall (not_below key x) l.
Proof.
  destruct l as [ | y l]; [ discriminate | ]. intros Hn Hx.
  inversion Hn as [ | ? ? Hy Hl]; subst.
  cbn [Py.max_by] in Hx. injection Hx as <-.
  destruct (fold_max_greatest key l y Hy Hl) as [Hry Hrl].
  constructor; assumption.
Qed.

Lemma run_init_ok self :
  0 < pop_size self ->
  exists pop ge gd best,
    run_init self
    = Ok (set_best_overall (set_population (advance self ge gd) pop)
            (Some best)) /\
    len pop = pop_size self /\
    Forall (fun a => 5 <= len (layers a) <= 20 /\ sampled a) pop /\
    Py.max_by accuracy pop = Ok best.
Proof.
  intros Hpos. unfold run_init.
  destruct (create_population_ok (Z.to_nat (pop_size self)) self)
    as [pop [ge [gd [Hpop [Hlen Hall]]]]].
  rewrite Hpop. cbn [rbind].
  change (population (set_population (advance self ge gd) pop)) with pop.
  destruct (max_by_ok accuracy pop) as [best [Hbest _]].
  { destruct pop; [ cbn in Hlen; lia | discriminate ]. }
  rewrite Hbest. cbn [rbind].
  exists pop, ge, gd, best.
  split; [ reflexivity | ].
  split; [ unfold len; lia | ].
  split; assumption.
Qed.

(** With [pop_size <= 0] the population is empty and [max] raises. *)
Lemma run_init_empty self :
  pop_size self <= 0 -> run_init self = Raise ValueError.
Proof.
  intros Hle. unfold run_init.
  replace (Z.to_nat (pop_size self)) with 0%nat by lia.
  reflexivity.
Qed.

Lemma mapM_inv {A B} (f : A -> result B) (l : list A) (l' : list B) :
  mapM f l = Ok l' -> Forall2 (fun a b => f a = Ok b) l l'.
Proof.
  revert l'. induction l as [ | x l IH]; intros l' Hm; cbn [mapM] in Hm.
  - injection Hm as <-. constructor.
  - destruct (f x) as [y | e] eqn:Hy; cbn [rbind] in Hm; [ | discriminate ].
    destruct (mapM f l) as [ys | e] eqn:Hys; cbn [rbind] in Hm;
      [ | discriminate ].
    injection Hm as <-. constructor; [ exact Hy | apply IH; reflexivity ].
Qed.

Lemma mapM_ok {A B} (f : A -> result B) (l : list A) :
  (forall a, exists b, f a = Ok b) -> exists l', mapM f l = Ok l'.
Proof.
  intros Hf. induction l as [ | x l [l' IH]]; cbn [mapM].
  - eexists. reflexivity.
  - destruct (Hf x) as [y Hy]. rewrite Hy, IH. cbn [rbind].
    eexists. reflexivity.
Qed.

Lemma compute_elimination_score_ok (d : NASRefinerDomain.t (G:=G)) a gen :
  NASRefinerDomain.target_complexity d <> 0 ->
  exists s, NASRefinerDomain.compute_elimination_score d a gen = Ok s.
Proof.
  intros Htc. unfold NASRefinerDomain.compute_elimination_score, Py.truediv.
  destruct (Z.eqb_spec (NASRefinerDomain.target_complexity d) 0);
    [ contradiction | ].
  cbn [rbind]. change (len ops =? 0) with false. cbn [rbind].
  eexists. reflexivity.
Qed.

Lemma compute_elimination_score_zero (d : NASRefinerDomain.t (G:=G)) a gen :
  NASRefinerDomain.target_complexity d = 0 ->
  NASRefinerDomain.compute_elimination_score d a gen = Raise ZeroDivisionError.
Proof.
  intros Htc. unfold NASRefinerDomain.compute_elimination_score, Py.truediv.
  rewrite Htc. reflexivity.
Qed.

Lemma scored_length d gen l l' :
  Forall2 (scored_by d gen) l l' -> length l' = length l.
Proof. intros Hs. symmetry. eapply Forall2_length, Hs. Qed.

(** Writing the scores changes no encoding, parameter count or accuracy. *)
Lemma scored_same_members d gen l l' :
  Forall2 (scored_by d gen) l l' ->
  map layers l' = map layers l /\
  map params l' = map params l /\
  map accuracy l' = map accuracy l.
Proof.
  induction 1 as [ | a a' l l' (sc & _ & ->) _ (IH1 & IH2 & IH3)];
    cbn [map].
  - repeat split.
  - rewrite IH1, IH2, IH3. repeat split.
Qed.

(** Everything [select] computes, read off a successful call. *)
Lemma select_inv (gen : Z) self sel self' :
  select gen self = Ok (sel, self') ->
  exists scored k c,
    Forall2 (scored_by (domain self) gen) (population self) scored /\
    keep_count self = Ok k /\
    paradox_capacity self = Ok c /\
    sel_sorted sel = Py.sorted_desc elim_score scored /\
    sel_elite sel = Py.slice_to k (sel_sorted sel) /\
    sel_eliminated sel = Py.slice_from k (sel_sorted sel) /\
    sel_candidates sel
    = filter (paradoxical_in self (sel_sorted sel)) (sel_eliminated sel) /\
    self' = set_paradox_buffer (set_population self scored)
              (Py.slice_to c (Py.sorted_asc params (sel_candidates sel))).
Proof.
  unfold select. intros Hsel.
  match type of Hsel with
  | rbind (mapM ?f ?l) _ = _ =>
      destruct (mapM f l) as [scored | e] eqn:Hscored;
      cbn [rbind] in Hsel; [ | discriminate ]
  end.
  apply mapM_inv in Hscored.
  destruct (keep_count (set_population self scored)) as [k | e] eqn:Hk;
    cbn [rbind] in Hsel; [ | discriminate ].
  destruct (paradox_capacity (set_population self scored)) as [c | e] eqn:Hc;
    cbn [rbind] in Hsel; [ | discriminate ].
  injection Hsel as <- <-.
  exists scored, k, c. cbn [sel_sorted sel_elite sel_eliminated sel_candidates].
  split.
  { eapply Forall2_impl; [ | exact Hscored ].
    intros a a' Ha. cbn beta in Ha.
    destruct (NASRefinerDomain.compute_elimination_score (domain self) a gen)
      as [s | e] eqn:Hs; cbn [rbind] in Ha; [ | discriminate ].
    injection Ha as <-. exists s. split; [ exact Hs | reflexivity ]. }
  repeat split; assumption.
Qed.

Lemma select_ok (gen : Z) self k c :
  NASRefinerDomain.target_complexity (domain self) <> 0 ->
  keep_count self = Ok k ->
  paradox_capacity self = Ok c ->
  exists sel self', select gen self = Ok (sel, self').
Proof.
  intros Htc Hk Hc. unfold select.
  match goal with
  | |- exists _ _, rbind (mapM ?f ?l) _ = _ =>
      destruct (mapM_ok f l) as [scored Hscored]
  end.
  { intros a.
    destruct (compute_elimination_score_ok (domain self) a gen Htc) as [s Hs].
    rewrite Hs. cbn [rbind]. eexists. reflexivity. }
  rewrite Hscored. cbn [rbind].
  change (keep_count (set_population self scored)) with (keep_count self).
  rewrite Hk. cbn [rbind].
  change (paradox_capacity (set_population self scored))
    with (paradox_capacity self).
  rewrite Hc. cbn [rbind].
  eexists _, _. reflexivity.
Qed.

Lemma is_empty_false {A} (l : list A) : is_empty l = false -> l <> [].
Proof. destruct l; [ discriminate | intros _; discriminate ]. Qed.

Lemma len_app {A} (l1 l2 : list A) : len (l1 ++ l2) = len l1 + len l2.
Proof. unfold len. rewrite length_app. lia. Qed.

(** What a completed refill returns: the population it started from,
    extended to [pop_size] members, and an engine whose generators moved. *)
Lemma fill_inv (fuel : nat) (elite : list Architecture) :
  forall population self pop' self',
    fill fuel elite population self = Ok (pop', self') ->
    (exists ge gd, self' = advance self ge gd) /\
    len pop' = Z.max (len population) (pop_size self) /\
    exists added, pop' = population ++ added /\
                  Forall (refilled self elite) added.
Proof.
  induction fuel as [ | fuel IH]; intros population self pop' self' Hfill;
    cbn [fill] in Hfill;
    destruct (Z.ltb_spec (len population) (pop_size self)) as [Hlt | Hge];
    try discriminate.
  - injection Hfill as <- <-.
    split; [ eexists _, _; apply advance_id | ].
    split; [ lia | ].
    exists []. split; [ symmetry; apply app_nil_r | constructor ].
  - destruct (rand_random (rng self)) as [u g1].
    match type of Hfill with
    | (if ?c then _ else _) = _ => destruct c
    end.
    + destruct (choice (paradox_buffer (set_rng self g1)) (rng (set_rng self g1)))
        as [[p g2] | e] eqn:Hp; cbn [rbind] in Hfill; [ | discriminate ].
      apply choice_in in Hp.
      apply IH in Hfill as [[ge [gd ->]] [Hlen [added [Hadd Hall]]]].
      split; [ exists ge, gd; reflexivity | ].
      rewrite len_app in Hlen. change (len [p]) with 1 in Hlen.
      cbn [pop_size set_rng] in Hlen.
      split; [ lia | ].
      exists (p :: added). rewrite Hadd, <- app_assoc.
      split; [ reflexivity | ].
      constructor; [ left; exact Hp | exact Hall ].
    + destruct (choice elite (rng (set_rng self g1)))
        as [[parent g2] | e] eqn:Hp; cbn [rbind] in Hfill; [ | discriminate ].
      apply choice_in in Hp.
      destruct (mutate_arch_ok (set_rng (set_rng self g1) g2) parent)
        as [child [ge [gd [Hm _]]]].
      rewrite Hm in Hfill. cbn [rbind] in Hfill.
      apply IH in Hfill as [[ge' [gd' ->]] [Hlen [added [Hadd Hall]]]].
      split; [ exists ge', gd'; reflexivity | ].
      rewrite len_app in Hlen. change (len [child]) with 1 in Hlen.
      cbn [pop_size set_rng set_domain advance] in Hlen.
      split; [ lia | ].
      exists (child :: added). rewrite Hadd, <- app_assoc.
      split; [ reflexivity | ].
      constructor; [ | exact Hall ].
      right. eexists parent, _, _. split; [ exact Hp | exact Hm ].
  - injection Hfill as <- <-.
    split; [ eexists _, _; apply advance_id | ].
    split; [ lia | ].
    exists []. split; [ symmetry; apply app_nil_r | constructor ].
Qed.

(** With a non-empty elite the refill completes within its bound. *)
Lemma fill_ok (fuel : nat) (elite : list Architecture) :
  elite <> [] ->
  forall population self,
    pop_size self - len population <= Z.of_nat fuel ->
    exists pop' self', fill fuel elite population self = Ok (pop', self').
Proof.
  intros Helite.
  induction fuel as [ | fuel IH]; intros population self Hfuel;
    cbn [fill];
    destruct (Z.ltb_spec (len population) (pop_size self)) as [Hlt | Hge];
    try lia; try (eexists _, _; reflexivity).
  destruct (rand_random (rng self)) as [u g1].
  match goal with
  | |- exists _ _, (if ?c then _ else _) = _ => destruct c eqn:Hc
  end.
  - apply andb_prop in Hc as [_ Hbuf]. apply negb_true_iff in Hbuf.
    apply is_empty_false in Hbuf.
    destruct (choice_ok _ (rng (set_rng self g1)) Hbuf) as [p [Hp _]].
    rewrite Hp. cbn [rbind].
    apply IH. rewrite len_app. change (len [p]) with 1.
    cbn [pop_size set_rng]. lia.
  - destruct (choice_ok elite (rng (set_rng self g1)) Helite)
      as [parent [Hp _]].
    rewrite Hp. cbn [rbind].
    match goal with
    | |- exists _ _, rbind (mutate_arch ?s parent) _ = _ =>
        destruct (mutate_arch_ok s parent) as [child [ge [gd [Hm _]]]]
    end.
    rewrite Hm. cbn [rbind].
    apply IH. rewrite len_app. change (len [child]) with 1.
    cbn [pop_size set_rng set_domain advance]. lia.
Qed.

(** With an empty elite and an empty buffer the first refill draw raises. *)
Lemma fill_empty_elite (fuel : nat) population self :
  len population < pop_size self ->
  paradox_buffer self = [] ->
  fill (S fuel) [] population self = Raise IndexError.
Proof.
  intros Hlt Hbuf. cbn [fill].
  destruct (Z.ltb_spec (len population) (pop_size self)); [ | lia ].
  destruct (rand_random (rng self)) as [u g1].
  cbn [paradox_buffer set_rng]. rewrite Hbuf. cbn [is_empty negb].
  rewrite andb_false_r. reflexivity.
Qed.

Lemma generation_step_inv (gen : Z) self pop' self' :
  generation_step gen self = Ok (pop', self') ->
  exists sel self1 ge gd cb b,
    select gen self = Ok (sel, self1) /\
    fill (Z.to_nat (pop_size self)) (sel_elite sel) (sel_elite sel) self1
    = Ok (pop', advance self1 ge gd) /\
    Py.max_by accuracy pop' = Ok cb /\
    best_overall self = Some b /\
    self' = set_best_overall (advance self1 ge gd) (Some (better b cb)).
Proof.
  unfold generation_step. intros Hstep.
  destruct (select gen self) as [[sel self1] | e] eqn:Hsel;
    cbn [rbind] in Hstep; [ | discriminate ].
  pose proof (select_inv _ _ _ _ Hsel)
    as [scored [k [c [_ [_ [_ [_ [_ [_ [_ Hself1]]]]]]]]]].
  assert (Hps : pop_size self1 = pop_size self) by (subst self1; reflexivity).
  assert (Hbo : best_overall self1 = best_overall self)
    by (subst self1; reflexivity).
  rewrite Hps in Hstep.
  destruct (fill (Z.to_nat (pop_size self)) (sel_elite sel) (sel_elite sel) self1)
    as [[pop2 self2] | e] eqn:Hfill; cbn [rbind] in Hstep; [ | discriminate ].
  destruct (fill_inv _ _ _ _ _ _ Hfill) as [[ge [gd Hself2]] _].
  destruct (Py.max_by accuracy pop2) as [cb | e] eqn:Hcb;
    cbn [rbind] in Hstep; [ | discriminate ].
  unfold update_best in Hstep.
  assert (Hbo2 : best_overall self2 = best_overall self).
  { rewrite Hself2. exact Hbo. }
  rewrite Hbo2 in Hstep.
  destruct (best_overall self) as [b | ] eqn:Hb; [ | discriminate ].
  exists sel, self1, ge, gd, cb, b.
  split; [ reflexivity | ].
  rewrite <- Hself2.
  unfold better.
  destruct (accuracy b <? accuracy cb)%float; cbn [rbind] in Hstep;
    injection Hstep as <- <-.
  - repeat split; assumption.
  - repeat split; try assumption.
    destruct self2 as [d ps gs fr pr g pop buf best]. cbn in Hbo2.
    subst best. reflexivity.
Qed.

(** With an empty elite and an empty new buffer the generation raises
    [IndexError], whatever the generator draws. *)
Lemma generation_step_empty_elite (gen : Z) self sel self1 :
  0 < pop_size self ->
  select gen self = Ok (sel, self1) ->
  sel_elite sel = [] ->
  paradox_buffer self1 = [] ->
  generation_step gen self = Raise IndexError.
Proof.
  intros Hpos Hsel Helite Hbuf.
  pose proof (select_inv _ _ _ _ Hsel)
    as (scored & k & c & _ & _ & _ & _ & _ & _ & _ & Hself1).
  assert (Hps : pop_size self1 = pop_size self) by (subst self1; reflexivity).
  unfold generation_step. rewrite Hsel. cbn [rbind].
  rewrite Helite, Hps.
  destruct (Z.to_nat (pop_size self)) as [ | fuel] eqn:Hfuel; [ lia | ].
  rewrite fill_empty_elite; [ reflexivity | | exact Hbuf ].
  change (len []) with 0. lia.
Qed.

Lemma generation_step_ok (gen : Z) self k c b :
  NASRefinerDomain.target_complexity (domain self) <> 0 ->
  keep_count self = Ok k -> 1 <= k ->
  paradox_capacity self = Ok c ->
  0 < pop_size self -> len (population self) = pop_size self ->
  best_overall self = Some b ->
  exists pop' self', generation_step gen self = Ok (pop', self').
Proof.
  intros Htc Hk Hk1 Hc Hpos Hlen Hb.
  destruct (select_ok gen self k c Htc Hk Hc) as [sel [self1 Hsel]].
  pose proof (select_inv _ _ _ _ Hsel)
    as [scored [k' [c' [Hscored [Hk' [_ [Hsorted [Helite [_ [_ Hself1]]]]]]]]]].
  assert (k' = k) by congruence. subst k'.
  assert (Hne : sel_elite sel <> []).
  { rewrite Helite. apply ListFacts.slice_to_nonempty; [ exact Hk1 | ].
    rewrite Hsorted. intros Hnil.
    apply (f_equal (@length _)) in Hnil.
    rewrite ListFacts.sorted_desc_length, (scored_length _ _ _ _ Hscored) in Hnil.
    unfold len in Hlen. cbn [length] in Hnil. lia. }
  unfold generation_step. rewrite Hsel. cbn [rbind].
  destruct (fill_ok (Z.to_nat (pop_size self1)) (sel_elite sel) Hne
              (sel_elite sel) self1) as [pop' [self2 Hfill]].
  { unfold len. lia. }
  rewrite Hfill. cbn [rbind].
  destruct (fill_inv _ _ _ _ _ _ Hfill) as [[ge [gd Hself2]] [Hlen' _]].
  destruct (max_by_ok accuracy pop') as [cb [Hcb _]].
  { intros ->. change (len []) with 0 in Hlen'.
    subst self1. cbn [pop_size set_paradox_buffer set_population] in Hlen'.
    unfold len in Hlen'. lia. }
  rewrite Hcb. cbn [rbind].
  unfold update_best.
  replace (best_overall self2) with (Some b)
    by (subst self2 self1; symmetry; exact Hb).
  destruct (accuracy b <? accuracy cb)%float; cbn [rbind];
    eexists _, _; reflexivity.
Qed.

Lemma same_config_refl self : same_config self self.
Proof. repeat split. Qed.

Lemma same_config_trans (s1 s2 s3 : @t G) :
  same_config s1 s2 -> same_config s2 s3 -> same_config s1 s3.
Proof.
  unfold same_config. intros (? & ? & ? & ? & ?) (? & ? & ? & ? & ?).
  repeat split; congruence.
Qed.

Lemma keep_count_config (s1 s2 : @t G) :
  same_config s1 s2 -> keep_count s2 = keep_count s1.
Proof.
  unfold same_config, keep_count. intros (-> & _ & -> & _). reflexivity.
Qed.

Lemma paradox_capacity_config (s1 s2 : @t G) :
  same_config s1 s2 -> paradox_capacity s2 = paradox_capacity s1.
Proof.
  unfold same_config, paradox_capacity. intros (-> & _ & _ & -> & _).
  reflexivity.
Qed.

(** A generation keeps the hyperparameters and the size of the stored
    population, installs the buffer [select] built and leaves a best
    architecture. *)
Lemma generation_step_frame (gen : Z) self pop' self' :
  generation_step gen self = Ok (pop', self') ->
  same_config self self' /\
  len (population self') = len (population self) /\
  exists sel self1,
    select gen self = Ok (sel, self1) /\
    paradox_buffer self' = paradox_buffer self1 /\
    population self' = population self1.
Proof.
  intros Hstep.
  destruct (generation_step_inv _ _ _ _ Hstep)
    as (sel & self1 & ge & gd & cb & b & Hsel & _ & _ & _ & ->).
  pose proof (select_inv _ _ _ _ Hsel)
    as (scored & k & c & Hscored & _ & _ & _ & _ & _ & _ & ->).
  split; [ repeat split | ].
  split.
  - cbn. unfold len. f_equal. eapply scored_length, Hscored.
  - exists sel. eexists. split; [ exact Hsel | split; reflexivity ].
Qed.

Lemma run_init_frame self self' :
  run_init self = Ok self' ->
  same_config self self' /\
  paradox_buffer self' = paradox_buffer self /\
  len (population self') = pop_size self /\
  exists best, best_overall self' = Some best /\
               Py.max_by accuracy (population self') = Ok best /\
               Forall (fun a => 5 <= len (layers a) <= 20 /\ sampled a)
                      (population self').
Proof.
  intros Hinit.
  destruct (Z.ltb_spec 0 (pop_size self)) as [Hpos | Hle].
  - destruct (run_init_ok self Hpos)
      as (pop & ge & gd & best & Hok & Hlen & Hall & Hbest).
    rewrite Hok in Hinit. injection Hinit as <-.
    split; [ repeat split | ].
    split; [ reflexivity | ].
    split; [ exact Hlen | ].
    exists best. repeat split; assumption.
  - rewrite run_init_empty in Hinit by lia. discriminate Hinit.
Qed.

Lemma run_loop_app (l1 l2 : list Z) self :
  run_loop (l1 ++ l2) self = (s <- run_loop l1 self ;; run_loop l2 s).
Proof.
  revert self. induction l1 as [ | gen l1 IH]; intros self; cbn [app run_loop].
  - reflexivity.
  - destruct (generation_step gen self) as [[pop s1] | e]; cbn [rbind].
    + apply IH.
    + reflexivity.
Qed.

Lemma range_snoc (n : Z) :
  0 <= n -> Py.range 1 (n + 1 + 1) = Py.range 1 (n + 1) ++ [n + 1].
Proof.
  intros Hn. unfold Py.range.
  replace (Z.to_nat (n + 1 + 1 - 1)) with (S (Z.to_nat (n + 1 - 1))) by lia.
  rewrite seq_S, map_app. cbn [map Nat.add]. f_equal. f_equal. lia.
Qed.

Lemma range_empty (a b : Z) : b <= a -> Py.range a b = [].
Proof.
  intros Hle. unfold Py.range.
  replace (Z.to_nat (b - a)) with 0%nat by lia. reflexivity.
Qed.

(** The run cut after [n + 1] generations is the run cut after [n],
    followed by generation [n + 1]. *)
Lemma run_generations_succ (n : Z) self :
  0 <= n ->
  run_generations (n + 1) self
  = (s <- run_generations n self ;;
     '(_, s') <- generation_step (n + 1) s ;; Ok s').
Proof.
  intros Hn. unfold run_generations.
  destruct (run_init self) as [s0 | e]; cbn [rbind]; [ | reflexivity ].
  rewrite range_snoc by exact Hn. rewrite run_loop_app.
  destruct (run_loop (Py.range 1 (n + 1)) s0) as [s | e]; cbn [rbind];
    [ | reflexivity ].
  cbn [run_loop].
  destruct (generation_step (n + 1) s) as [[pop s'] | e]; reflexivity.
Qed.

(** A property that every generation preserves holds when the loop ends. *)
Lemma run_loop_invariant (P : @t G -> Prop) :
  (forall gen s pop s', P s -> generation_step gen s = Ok (pop, s') -> P s') ->
  forall gens self self',
    P self -> run_loop gens self = Ok self' -> P self'.
Proof.
  intros Hstep gens. induction gens as [ | gen gens IH];
    intros self self' HP Hrun; cbn [run_loop] in Hrun.
  - injection Hrun as <-. exact HP.
  - destruct (generation_step gen self) as [[pop s1] | e] eqn:Hs;
      cbn [rbind] in Hrun; [ | discriminate ].
    eapply IH; [ | exact Hrun ]. eapply Hstep; eassumption.
Qed.

Lemma better_is_number b cb :
  not_nan (accuracy b) -> not_nan (accuracy (better b cb)).
Proof.
  intros Hb. unfold better.
  destruct (accuracy b <? accuracy cb)%float eqn:Hlt; [ | exact Hb ].
  eapply FloatFacts.ltb_not_nan_r, Hlt.
Qed.

Lemma generation_step_best (gen : Z) self pop' self' :
  best_is_number self ->
  generation_step gen self = Ok (pop', self') -> best_is_number self'.
Proof.
  intros [b [Hb Hnum]] Hstep.
  destruct (generation_step_inv _ _ _ _ Hstep)
    as (sel & self1 & ge & gd & cb & b0 & _ & _ & _ & Hb0 & ->).
  assert (b0 = b) by congruence. subst b0.
  exists (better b cb). split; [ reflexivity | ].
  apply better_is_number, Hnum.
Qed.

Lemma run_init_best self self' :
  run_init self = Ok self' -> best_is_number self'.
Proof.
  intros Hinit.
  destruct (run_init_frame _ _ Hinit)
    as (_ & _ & _ & best & Hbest & Hmax & Hall).
  exists best. split; [ exact Hbest | ].
  apply max_by_in in Hmax. rewrite Forall_forall in Hall.
  destruct (Hall _ Hmax) as [_ [Hrange _]].
  apply in_unit_range_not_nan, Hrange.
Qed.

Lemma run_generations_best (n : Z) self self' :
  run_generations n self = Ok self' -> best_is_number self'.
Proof.
  unfold run_generations. intros Hrun.
  destruct (run_init self) as [s0 | e] eqn:Hinit; cbn [rbind] in Hrun;
    [ | discriminate ].
  eapply (run_loop_invariant best_is_number); [ | | exact Hrun ].
  - intros gen s pop s' HP Hs. eapply generation_step_best; eassumption.
  - eapply run_init_best, Hinit.
Qed.

End Facts.
End EngineFacts.

(* ===================================================================== *)
(** ** The claims *)
(* ===================================================================== *)

Import ForgettingEngineNAS EngineFacts Statements.

Section Claims.
Context {G : Type} `{RandomGen G} `{Numpy}.
Implicit Types self : @t G.
Implicit Types d : @NASRefinerDomain.t G.

(** C4 (as amended).  [is_paradoxical] returns true exactly when both lists
    are non-empty, the accuracy is strictly below the mean of the accuracies
    and the parameter count is strictly below the 25th percentile of the
    sizes.  When either list is empty it returns false, whatever the mean and
    the percentile would be. *)
Theorem C4_is_paradoxical_strict d (arch : Architecture)
  (pop_accs : list float) (pop_sizes : list Z) :
  (NASRefinerDomain.is_paradoxical d arch pop_accs pop_sizes = true <->
   pop_accs <> [] /\ pop_sizes <> [] /\
   (accuracy arch <? np_mean pop_accs)%float = true /\
   (Py.float_of_Z (params arch) <? np_percentile pop_sizes 25)%float = true)
  /\ NASRefinerDomain.is_paradoxical d arch [] pop_sizes = false
  /\ NASRefinerDomain.is_paradoxical d arch pop_accs [] = false.
Proof.
  unfold NASRefinerDomain.is_paradoxical.
  split; [ | split ].
  - destruct pop_accs as [ | x xs], pop_sizes as [ | y ys]; cbn [is_empty orb].
    + split; [ discriminate | intros [Hne _]; congruence ].
    + split; [ discriminate | intros [Hne _]; congruence ].
    + split; [ discriminate | intros [_ [Hne _]]; congruence ].
    + rewrite andb_true_iff. split.
      * intros [Ha Hp]. repeat split; (discriminate || assumption).
      * intros (_ & _ & Ha & Hp). split; assumption.
  - reflexivity.
  - destruct pop_accs; reflexivity.
Qed.

Lemma apply_remove_ok (l : list string) (g : G) :
  exists l' g',
    apply_mutation remove l g = Ok (l', g') /\
    (len l <= 3 -> l' = l /\ g' = g) /\
    (3 < len l -> len l' = len l - 1).
Proof.
  unfold apply_mutation.
  destruct (Z.ltb_spec 3 (len l)) as [H3 | H3].
  - rewrite randrange_ok by lia.
    pose proof (randbelow_range (len l) g ltac:(lia)) as Hr.
    destruct (randbelow (len l) g) as [pos g1]. cbn [fst] in Hr.
    cbn [rbind].
    destruct (delitem_ok l pos Hr) as [l1 [Hl1 Hlen1]].
    rewrite Hl1. cbn [rbind].
    exists l1, g1. split; [ reflexivity | ].
    split; [ lia | intros _; unfold len; lia ].
  - exists l, g. split; [ reflexivity | ].
    split; [ intros _; split; reflexivity | lia ].
Qed.

(** C6 (as amended).  A remove mutation changes the encoding only when it has
    more than 3 layers, and then takes exactly one layer away: an encoding of
    4 layers becomes one of 3.  So [n] remove mutations in a row leave
    [max(min(len, 3), len - n)] layers, and no sequence of mutations takes an
    encoding of at least 3 layers below 3 layers. *)
Theorem C6_remove_floor_is_three :
  (forall (l : list string) (g : G),
     exists l' g',
       apply_mutation remove l g = Ok (l', g') /\
       (len l <= 3 -> l' = l /\ g' = g) /\
       (3 < len l -> len l' = len l - 1)) /\
  (forall (n : nat) (l : list string) (g : G),
     exists l' g',
       remove_times n l g = Ok (l', g') /\
       len l' = Z.max (Z.min (len l) 3) (len l - Z.of_nat n)) /\
  (forall (n : nat) self (parent : Architecture),
     3 <= len (layers parent) ->
     exists child self',
       mutate_times n self parent = Ok (child, self') /\
       3 <= len (layers child)).
Proof.
  split; [ exact apply_remove_ok | split ].
  - induction n as [ | n IH]; intros l g; cbn [remove_times].
    + exists l, g. split; [ reflexivity | lia ].
    + destruct (apply_remove_ok l g) as (l1 & g1 & Hl1 & Hsmall & Hbig).
      rewrite Hl1. cbn [rbind].
      destruct (IH l1 g1) as (l' & g' & Hl' & Hlen).
      exists l', g'. split; [ exact Hl' | ].
      destruct (Z.ltb_spec 3 (len l)) as [H3 | H3].
      * rewrite Hlen, (Hbig H3). lia.
      * destruct (Hsmall H3) as [-> _]. rewrite Hlen. lia.
  - induction n as [ | n IH]; intros self parent Hlen; cbn [mutate_times].
    + exists parent, self. split; [ reflexivity | exact Hlen ].
    + destruct (mutate_arch_ok self parent)
        as (child & ge & gd & Hm & _ & Hlow & Hshort).
      rewrite Hm. cbn [rbind].
      apply IH. lia.
Qed.


Lemma strongly_sorted_firstn {A} (R : A -> A -> Prop) (n : nat) (l : list A) :
  StronglySorted R l -> StronglySorted R (firstn n l).
Proof.
  revert n. induction l as [ | x l IH]; intros n Hs.
  - rewrite firstn_nil. constructor.
  - destruct n as [ | n]; cbn [firstn]; [ constructor | ].
    inversion Hs as [ | ? ? Hs' Hall]; subst.
    constructor; [ apply IH, Hs' | ].
    rewrite Forall_forall in *. intros y Hy.
    apply Hall. rewrite <- (firstn_skipn n l). apply in_or_app. left. exact Hy.
Qed.

Lemma slice_to_le {A} (k : Z) (l : list A) : len (Py.slice_to k l) <= len l.
Proof.
  unfold Py.slice_to, len. rewrite length_firstn. lia.
Qed.


Lemma paradox_capacity_inv self c :
  paradox_capacity self = Ok c ->
  exists p k, Py.to_float (pop_size self) = Ok p /\
              Py.int (paradox_rate self * p)%float = Ok k /\
              c = Z.max 1 k.
Proof.
  unfold paradox_capacity.
  destruct (Py.to_float (pop_size self)) as [p | e]; cbn [rbind];
    [ | discriminate ].
  destruct (Py.int (paradox_rate self * p)%float) as [k | e] eqn:Hk;
    cbn [rbind]; [ | discriminate ].
  intros Hc. injection Hc as <-. exists p, k.
  split; [ reflexivity | split; [ exact Hk | reflexivity ] ].
Qed.


(** C5 (as amended).  Every generation replaces the paradox buffer by the
    paradoxical members of that generation's eliminated set, sorted ascending
    by parameter count and cut to the capacity
    [max(1, int(paradox_rate * pop_size))], where [int] truncates toward
    zero; the buffer a generation leaves does not depend on the buffer it
    found.  Hence the buffer, and the final [paradox_count], never exceeds
    that capacity. *)
Theorem C5_paradox_buffer_rebuilt :
  (forall self (gen : Z) pop' self',
     generation_step gen self = Ok (pop', self') ->
     exists sel self1 c,
       select gen self = Ok (sel, self1) /\
       paradox_capacity self = Ok c /\
       (exists p k, Py.to_float (pop_size self) = Ok p /\
                    Py.int (paradox_rate self * p)%float = Ok k /\
                    c = Z.max 1 k) /\
       sel_candidates sel
       = filter (paradoxical_in self (sel_sorted sel)) (sel_eliminated sel) /\
       paradox_buffer self'
       = Py.slice_to c (Py.sorted_asc params (sel_candidates sel)) /\
       StronglySorted (fun a b => params a <= params b) (paradox_buffer self') /\
       len (paradox_buffer self') <= c /\
       forall old,
         generation_step gen (set_paradox_buffer self old)
         = generation_step gen self) /\
  (forall self best m self' c,
     run self = Ok ((best, m), self') ->
     paradox_capacity self = Ok c ->
     len (paradox_buffer self) <= c ->
     paradox_count m <= c).
Proof.
  split.
  - intros self gen pop' self' Hstep.
    destruct (generation_step_frame _ _ _ _ Hstep)
      as (_ & _ & sel & self1 & Hsel & Hbuf & _).
    destruct (select_inv _ _ _ _ Hsel)
      as (scored & k & c & _ & _ & Hc & _ & _ & _ & Hcand & Hself1).
    destruct (paradox_capacity_inv _ _ Hc) as (p & k0 & Hp & Hk0 & Hmax).
    exists sel, self1, c.
    split; [ exact Hsel | ].
    split; [ exact Hc | ].
    split; [ exists p, k0; repeat split; assumption | ].
    split; [ exact Hcand | ].
    assert (Hb : paradox_buffer self'
                 = Py.slice_to c (Py.sorted_asc params (sel_candidates sel))).
    { rewrite Hbuf, Hself1. reflexivity. }
    split; [ exact Hb | ].
    split; [ rewrite Hb; apply strongly_sorted_firstn,
                           ListFacts.sorted_asc_strongly | ].
    split; [ rewrite Hb; apply ListFacts.slice_to_bound; lia | ].
    intros old. reflexivity.
  - intros self best m self' c Hrun Hc Hlen.
    unfold run in Hrun.
    destruct (run_generations (generations self) self) as [s | e] eqn:Hgens;
      cbn [rbind] in Hrun; [ | discriminate ].
    injection Hrun as _ <- _. cbn [paradox_count].
    unfold run_generations in Hgens.
    destruct (run_init self) as [s0 | e] eqn:Hinit; cbn [rbind] in Hgens;
      [ | discriminate ].
    destruct (run_init_frame _ _ Hinit) as (Hcfg0 & Hbuf0 & _).
    pose (P := fun s : @t G =>
                 same_config self s /\ len (paradox_buffer s) <= c).
    assert (HP : P s).
    { eapply (run_loop_invariant P); [ | | exact Hgens ].
      - intros gen s1 pop s2 [Hcfg Hle] Hstep.
        destruct (generation_step_frame _ _ _ _ Hstep)
          as (Hcfg' & _ & sel & self1 & Hsel & Hbuf & _).
        split; [ eapply same_config_trans; eassumption | ].
        destruct (select_inv _ _ _ _ Hsel)
          as (scored & k & c' & _ & _ & Hc' & _ & _ & _ & _ & Hself1).
        rewrite (paradox_capacity_config _ _ Hcfg), Hc in Hc'.
        injection Hc' as <-.
        destruct (paradox_capacity_inv _ _ Hc) as (p & k0 & _ & _ & Hmax).
        rewrite Hbuf, Hself1. cbn [paradox_buffer set_paradox_buffer].
        apply ListFacts.slice_to_bound. lia.
      - split; [ exact Hcfg0 | rewrite Hbuf0; exact Hlen ]. }
    exact (proj2 HP).
Qed.

Lemma generation_step_total self (s : @t G) (gen k c : Z) :
  NASRefinerDomain.target_complexity (domain self) <> 0 ->
  0 < pop_size self ->
  keep_count self = Ok k -> 1 <= k ->
  paradox_capacity self = Ok c ->
  loop_invariant self s ->
  exists pop' s' sel s1 added,
    generation_step gen s = Ok (pop', s') /\
    loop_invariant self s' /\
    select gen s = Ok (sel, s1) /\
    pop' = sel_elite sel ++ added /\
    Forall (refilled s1 (sel_elite sel)) added /\
    len pop' = pop_size self.
Proof.
  intros Htc Hpos Hk Hk1 Hc (Hcfg & Hlen & b & Hb).
  pose proof Hcfg as (Hps & _ & _ & _ & Htc').
  destruct (generation_step_ok gen s k c b) as (pop' & s' & Hstep).
  { rewrite Htc'. exact Htc. }
  { rewrite (keep_count_config _ _ Hcfg). exact Hk. }
  { exact Hk1. }
  { rewrite (paradox_capacity_config _ _ Hcfg). exact Hc. }
  { rewrite Hps. exact Hpos. }
  { rewrite Hps. exact Hlen. }
  { exact Hb. }
  destruct (generation_step_frame _ _ _ _ Hstep) as (Hcfg' & Hlen' & _).
  destruct (generation_step_inv _ _ _ _ Hstep)
    as (sel & s1 & ge & gd & cb & b0 & Hsel & Hfill & _ & _ & Hs').
  destruct (fill_inv _ _ _ _ _ _ Hfill) as (_ & Hfull & added & Hadd & Hall).
  destruct (select_inv _ _ _ _ Hsel)
    as (scored & k' & c' & Hscored & _ & _ & Hsorted & Helite & _ & _ & Hs1).
  exists pop', s', sel, s1, added.
  split; [ exact Hstep | ].
  split.
  { split; [ eapply same_config_trans; eassumption | ].
    split; [ rewrite Hlen'; exact Hlen | ].
    rewrite Hs'. eexists. reflexivity. }
  split; [ exact Hsel | ].
  split; [ exact Hadd | ].
  split; [ exact Hall | ].
  rewrite Hfull.
  assert (Hps1 : pop_size s1 = pop_size self).
  { rewrite Hs1. cbn [pop_size set_paradox_buffer set_population]. exact Hps. }
  assert (Hle : len (sel_elite sel) <= pop_size self).
  { rewrite Helite. etransitivity; [ apply slice_to_le | ].
    rewrite Hsorted. unfold len in *.
    rewrite ListFacts.sorted_desc_length, (scored_length _ _ _ _ Hscored).
    lia. }
  lia.
Qed.

Lemma run_generations_total self (k c : Z) (n : nat) :
  NASRefinerDomain.target_complexity (domain self) <> 0 ->
  0 < pop_size self ->
  keep_count self = Ok k -> 1 <= k ->
  paradox_capacity self = Ok c ->
  exists s, run_generations (Z.of_nat n) self = Ok s /\ loop_invariant self s.
Proof.
  intros Htc Hpos Hk Hk1 Hc. induction n as [ | n (s & Hs & Hinv)].
  - unfold run_generations.
    destruct (run_init_ok self Hpos)
      as (pop & ge & gd & best & Hinit & Hlen & _ & _).
    rewrite Hinit. cbn [rbind Z.of_nat]. rewrite range_empty by lia.
    cbn [run_loop]. eexists. split; [ reflexivity | ].
    split; [ repeat split | ].
    split; [ exact Hlen | eexists; reflexivity ].
  - replace (Z.of_nat (S n)) with (Z.of_nat n + 1) by lia.
    rewrite run_generations_succ by lia. rewrite Hs. cbn [rbind].
    destruct (generation_step_total self s (Z.of_nat n + 1) k c
                Htc Hpos Hk Hk1 Hc Hinv)
      as (pop' & s' & _ & _ & _ & Hstep & Hinv' & _).
    rewrite Hstep. cbn [rbind]. exists s'. split; [ reflexivity | exact Hinv' ].
Qed.


(** C8.  Across a generation step [best_overall.accuracy] never decreases,
    and [best_overall] is replaced only by a candidate of strictly higher
    accuracy: when the new generation's best ties the incumbent, the
    incumbent stays. *)
Theorem C8_best_overall_monotone self (k : Z) s_k pop s_k1 :
  0 <= k ->
  run_generations k self = Ok s_k ->
  generation_step (k + 1) s_k = Ok (pop, s_k1) ->
  run_generations (k + 1) self = Ok s_k1 /\
  exists b b' cb,
    best_overall s_k = Some b /\
    best_overall s_k1 = Some b' /\
    Py.max_by accuracy pop = Ok cb /\
    (accuracy b <=? accuracy b')%float = true /\
    b' = (if (accuracy b <? accuracy cb)%float then cb else b) /\
    ((accuracy cb =? accuracy b)%float = true -> b' = b).
Proof.
  intros Hk Hrun Hstep.
  split.
  { rewrite run_generations_succ by exact Hk.
    rewrite Hrun. cbn [rbind]. rewrite Hstep. reflexivity. }
  destruct (run_generations_best _ _ _ Hrun) as (b & Hb & Hnum).
  destruct (generation_step_inv _ _ _ _ Hstep)
    as (sel & s1 & ge & gd & cb & b0 & _ & _ & Hcb & Hb0 & ->).
  assert (b0 = b) by congruence. subst b0.
  exists b, (better b cb), cb.
  split; [ exact Hb | ].
  split; [ reflexivity | ].
  split; [ exact Hcb | ].
  unfold better.
  destruct (accuracy b <? accuracy cb)%float eqn:Hlt.
  - split; [ apply FloatFacts.ltb_leb, Hlt | ].
    split; [ reflexivity | ].
    intros Htie. rewrite (FloatFacts.ltb_eqb_false _ _ Hlt) in Htie.
    discriminate Htie.
  - split; [ exact Hnum | ].
    split; reflexivity.
Qed.

(** C3 (as amended).  The constructor checks nothing: whatever [pop_size],
    [generations], [forget_rate] and [paradox_rate] it is given, it returns
    an engine that stores them unchanged, with an empty population and an
    empty paradox buffer.  A [pop_size] that is not positive surfaces only
    when [run] is called, as the [ValueError] of [max] on an empty
    population; a [generations] that is not positive is accepted and the run
    returns the best of the initial population. *)
Theorem C3_constructor_checks_nothing d (pop gens : Z) (fr pr : float)
  (seed : Z) :
  exists self,
    __init__ d pop gens fr pr seed = Ok self /\
    (domain self = d /\ pop_size self = pop /\ generations self = gens /\
     forget_rate self = fr /\ paradox_rate self = pr /\
     rng self = seed_rng seed /\
     population self = [] /\ paradox_buffer self = [] /\
     best_overall self = None) /\
    (pop <= 0 -> run self = Raise ValueError) /\
    (0 < pop -> gens <= 0 ->
     exists best self',
       run self = Ok ((Some best, {| paradox_count := 0 |}), self') /\
       Py.max_by accuracy (population self') = Ok best).
Proof.
  eexists. split; [ reflexivity | ].
  split; [ repeat split | ].
  split.
  - intros Hpop. unfold run, run_generations.
    rewrite run_init_empty by exact Hpop. reflexivity.
  - intros Hpop Hgens. unfold run, run_generations.
    match goal with
    | |- context [run_init ?e] =>
        destruct (run_init_ok e Hpop)
          as (p & ge & gd & best & Hinit & _ & _ & Hbest)
    end.
    rewrite Hinit. cbn [rbind generations].
    rewrite range_empty by lia. cbn [run_loop rbind].
    eexists best, _. split; [ reflexivity | exact Hbest ].
Qed.


(** X1.  [run] assigns [self.population] once, before the loop.  Every
    generation scores, sorts and partitions the members of that initial
    population: after any number of generations the stored population has
    the encodings, parameter counts and accuracies of the initial one, in the
    same order.  The next generation a step builds serves to update
    [best_overall] and is not stored. *)
Theorem X1_stored_population_is_initial self (n : Z) (s_init s_n : @t G) :
  run_init self = Ok s_init ->
  run_generations n self = Ok s_n ->
  map layers (population s_n) = map layers (population s_init) /\
  map params (population s_n) = map params (population s_init) /\
  map accuracy (population s_n) = map accuracy (population s_init).
Proof.
  intros Hinit Hrun. unfold run_generations in Hrun.
  rewrite Hinit in Hrun. cbn [rbind] in Hrun.
  pose (P := fun s : @t G =>
               map layers (population s) = map layers (population s_init) /\
               map params (population s) = map params (population s_init) /\
               map accuracy (population s) = map accuracy (population s_init)).
  apply (run_loop_invariant P) with (gens := Py.range 1 (n + 1)) (self := s_init);
    [ | repeat split | exact Hrun ].
  intros gen s pop s' (Hl & Hp & Ha) Hstep.
  destruct (generation_step_frame _ _ _ _ Hstep)
    as (_ & _ & sel & s1 & Hsel & _ & Hpop).
  destruct (select_inv _ _ _ _ Hsel)
    as (scored & k & c & Hscored & _ & _ & _ & _ & _ & _ & Hs1).
  destruct (scored_same_members _ _ _ _ Hscored) as (Hl' & Hp' & Ha').
  unfold P. rewrite Hpop, Hs1. cbn [population set_paradox_buffer set_population].
  rewrite Hl', Hp', Ha'. repeat split; assumption.
Qed.

End Claims.

(* ===================================================================== *)
(** ** Further properties of the code *)
(* ===================================================================== *)

Section Further.
Context {G : Type} `{RandomGen G} `{Numpy}.
Implicit Types self : @t G.
Implicit Types d : @NASRefinerDomain.t G.

(** *** The parameter count *)

Lemma fold_add_shift (l : list Z) (a : Z) :
  fold_left Z.add l a = a + Py.sum l.
Proof.
  unfold Py.sum. revert a. induction l as [ | x l IH]; intros a; cbn [fold_left].
  - lia.
  - rewrite (IH (a + x)), (IH (0 + x)). lia.
Qed.

Lemma count_params_cons (op : string) (l : list string) :
  count_params (op :: l) = dict_get params_per_layer op 10000 + count_params l.
Proof.
  unfold count_params, Py.sum. cbn [map fold_left].
  rewrite fold_add_shift. unfold Py.sum. lia.
Qed.

Lemma count_params_app (l1 l2 : list string) :
  count_params (l1 ++ l2) = count_params l1 + count_params l2.
Proof.
  induction l1 as [ | op l1 IH]; cbn [app].
  - reflexivity.
  - rewrite !count_params_cons, IH. lia.
Qed.

Lemma count_params_perm (l l' : list string) :
  Permutation l l' -> count_params l' = count_params l.
Proof.
  induction 1 as [ | x l l' _ IH | x y l | l l' l'' _ IH1 _ IH2].
  - reflexivity.
  - rewrite !count_params_cons, IH. reflexivity.
  - rewrite !count_params_cons. lia.
  - congruence.
Qed.

Lemma layer_cost_known (op : string) :
  In op ops -> 500 <= dict_get params_per_layer op 10000 <= 100000.
Proof.
  intros [<- | [<- | [<- | [<- | []]]]]; cbn; lia.
Qed.

Lemma layer_cost_unknown (op : string) :
  ~ In op ops -> dict_get params_per_layer op 10000 = 10000.
Proof.
  intros Hop. unfold params_per_layer. cbn [dict_get].
  repeat match goal with
  | |- context [String.eqb op ?k] =>
      destruct (String.eqb_spec op k) as [-> | _];
      [ exfalso; apply Hop; cbn; tauto | ]
  end.
  reflexivity.
Qed.

Lemma count_params_bounds (l : list string) :
  Forall (fun op => In op ops) l ->
  500 * len l <= count_params l <= 100000 * len l.
Proof.
  induction 1 as [ | op l Hop _ IH].
  - cbn. lia.
  - rewrite count_params_cons. apply layer_cost_known in Hop.
    unfold len in *. cbn [length]. lia.
Qed.

(** *** The two samplers *)

(** On a non-empty encoding [estimate_performance] draws one [random()] from
    the domain's generator. *)
Lemma estimate_performance_nonempty d (arch : Architecture) :
  layers arch <> [] ->
  NASRefinerDomain.estimate_performance d arch
  = (noisy_performance (layers arch)
       (fst (rand_random (NASRefinerDomain.rng d))),
     NASRefinerDomain.set_rng d (snd (rand_random (NASRefinerDomain.rng d)))).
Proof.
  intros Hl. unfold NASRefinerDomain.estimate_performance, uniform.
  destruct (layers arch) as [ | op l] eqn:E; [ congruence | ].
  cbn [is_empty].
  destruct (rand_random (NASRefinerDomain.rng d)) as [u g]. reflexivity.
Qed.

Lemma noisy_performance_range (l : list string) (u : float) :
  in_unit_range (noisy_performance l u).
Proof. apply FloatFacts.clamp_range. Qed.

Lemma length_pos_nonempty {A} (l : list A) : 0 < len l -> l <> [].
Proof. intros Hl ->. cbn in Hl. lia. Qed.

Lemma domain_create_random_arch_post d :
  exists a g2,
    NASRefinerDomain._create_random_arch d
    = Ok (a, NASRefinerDomain.set_rng d (snd (rand_random g2))) /\
    3 <= len (layers a) <= 10 /\
    Forall (fun op => In op ops) (layers a) /\
    constructed a /\
    accuracy a = noisy_performance (layers a) (fst (rand_random g2)) /\
    elim_score a = 0%float.
Proof.
  unfold NASRefinerDomain._create_random_arch.
  destruct (randint_ok 3 10 (NASRefinerDomain.rng d) ltac:(lia))
    as [v [Hv Hrange]].
  rewrite Hv. cbn [rbind].
  destruct (draw_layers_ok (Z.to_nat v)
              (snd (randbelow (10 - 3 + 1) (NASRefinerDomain.rng d))))
    as [l [g2 [Hl [Hlen Hall]]]].
  rewrite Hl. cbn [rbind].
  assert (Hne : l <> []) by (apply length_pos_nonempty; unfold len; lia).
  rewrite estimate_performance_nonempty by exact Hne.
  exists (set_accuracy (new_Architecture l (count_params l))
            (noisy_performance l (fst (rand_random g2)))), g2.
  cbn [layers set_accuracy new_Architecture accuracy elim_score
       NASRefinerDomain.rng NASRefinerDomain.set_rng].
  split; [ reflexivity | ].
  split; [ unfold len; lia | ].
  split; [ exact Hall | ].
  split; [ | split; reflexivity ].
  split; [ split; [ apply noisy_performance_range | reflexivity ] | reflexivity ].
Qed.

Lemma engine_create_random_arch_post self :
  exists a ge,
    _create_random_arch self
    = Ok (a, advance self ge
               (snd (rand_random (NASRefinerDomain.rng (domain self))))) /\
    5 <= len (layers a) <= 20 /\
    Forall (fun op => In op ops) (layers a) /\
    constructed a /\
    accuracy a
    = noisy_performance (layers a)
        (fst (rand_random (NASRefinerDomain.rng (domain self)))) /\
    elim_score a = 0%float.
Proof.
  unfold _create_random_arch.
  destruct (randint_ok 5 20 (rng self) ltac:(lia)) as [v [Hv Hrange]].
  rewrite Hv. cbn [rbind].
  destruct (draw_layers_ok (Z.to_nat v) (snd (randbelow (20 - 5 + 1) (rng self))))
    as [l [g2 [Hl [Hlen Hall]]]].
  rewrite Hl. cbn [rbind].
  assert (Hne : l <> []) by (apply length_pos_nonempty; unfold len; lia).
  rewrite estimate_performance_nonempty by exact Hne.
  eexists _, g2.
  split; [ reflexivity | ].
  cbn [layers set_accuracy new_Architecture accuracy elim_score].
  split; [ unfold len; lia | ].
  split; [ exact Hall | ].
  split; [ | split; reflexivity ].
  split; [ split; [ apply noisy_performance_range | reflexivity ] | reflexivity ].
Qed.


(** *** Mutation *)

Lemma in_firstn {A} (n : nat) (l : list A) x : In x (firstn n l) -> In x l.
Proof.
  intros Hx. rewrite <- (firstn_skipn n l). apply in_or_app. left. exact Hx.
Qed.

Lemma in_skipn {A} (n : nat) (l : list A) x : In x (skipn n l) -> In x l.
Proof.
  intros Hx. rewrite <- (firstn_skipn n l). apply in_or_app. right. exact Hx.
Qed.

Lemma getitem_inv {A} (l : list A) i x :
  Py.getitem l i = Ok x ->
  0 <= i < len l /\ nth_error l (Z.to_nat i) = Some x.
Proof.
  unfold Py.getitem, len.
  destruct (Z.leb_spec 0 i); cbn [andb]; [ | discriminate ].
  destruct (Z.ltb_spec i (Z.of_nat (length l))); [ | discriminate ].
  destruct (nth_error l (Z.to_nat i)) as [y | ]; [ | discriminate ].
  intros Hx. injection Hx as <-. split; [ lia | reflexivity ].
Qed.

Lemma setitem_inv {A} (l : list A) i x l' :
  Py.setitem l i x = Ok l' ->
  0 <= i < len l /\
  l' = firstn (Z.to_nat i) l ++ x :: skipn (S (Z.to_nat i)) l.
Proof.
  unfold Py.setitem, len.
  destruct (Z.leb_spec 0 i); cbn [andb]; [ | discriminate ].
  destruct (Z.ltb_spec i (Z.of_nat (length l))); [ | discriminate ].
  intros Hx. injection Hx as <-. split; [ lia | reflexivity ].
Qed.

Lemma setitem_in {A} (l : list A) i x l' y :
  Py.setitem l i x = Ok l' -> In y l' -> y = x \/ In y l.
Proof.
  intros Hs Hy. apply setitem_inv in Hs as [_ ->].
  apply in_app_or in Hy as [Hy | [<- | Hy]].
  - right. eapply in_firstn, Hy.
  - left. reflexivity.
  - right. apply (in_skipn (S (Z.to_nat i))). exact Hy.
Qed.

Lemma delitem_in {A} (l : list A) i l' y :
  Py.delitem l i = Ok l' -> In y l' -> In y l.
Proof.
  unfold Py.delitem.
  destruct ((0 <=? i) && (i <? Z.of_nat (length l))); [ | discriminate ].
  intros Hd Hy. injection Hd as <-.
  apply in_app_or in Hy as [Hy | Hy].
  - eapply in_firstn, Hy.
  - apply (in_skipn (S (Z.to_nat i))). exact Hy.
Qed.

Lemma insert_in {A} (l : list A) i x y :
  In y (Py.insert l i x) -> y = x \/ In y l.
Proof.
  unfold Py.insert. intros Hy.
  apply in_app_or in Hy as [Hy | [<- | Hy]].
  - right. eapply in_firstn, Hy.
  - left. reflexivity.
  - right. eapply in_skipn, Hy.
Qed.

(** Every layer a mutation leaves was in the encoding or is one of the four
    operations. *)
Lemma apply_mutation_members (m : mutation) (l : list string) (g : G) l' g' :
  apply_mutation m l g = Ok (l', g') ->
  Forall (fun op => In op l \/ In op ops) l'.
Proof.
  intros Hm. rewrite Forall_forall. intros y Hy.
  destruct m; unfold apply_mutation in Hm.
  - (* swap *)
    destruct (1 <? len l).
    + destruct (rand_sample2 (len l) g) as [[i j] g1].
      destruct (Py.getitem l j) as [lj | e] eqn:Hlj; cbn [rbind] in Hm;
        [ | discriminate ].
      destruct (Py.getitem l i) as [li | e] eqn:Hli; cbn [rbind] in Hm;
        [ | discriminate ].
      destruct (Py.setitem l i lj) as [l1 | e] eqn:Hl1; cbn [rbind] in Hm;
        [ | discriminate ].
      destruct (Py.setitem l1 j li) as [l2 | e] eqn:Hl2; cbn [rbind] in Hm;
        [ | discriminate ].
      injection Hm as <- <-.
      apply getitem_inv in Hlj as [_ Hlj]. apply nth_error_In in Hlj.
      apply getitem_inv in Hli as [_ Hli]. apply nth_error_In in Hli.
      destruct (setitem_in _ _ _ _ _ Hl2 Hy) as [-> | Hy1]; [ left; exact Hli | ].
      destruct (setitem_in _ _ _ _ _ Hl1 Hy1) as [-> | Hy0]; left; assumption.
    + injection Hm as <- <-. left. exact Hy.
  - (* add *)
    destruct (randrange (len l + 1) g) as [[pos g1] | e]; cbn [rbind] in Hm;
      [ | discriminate ].
    destruct (choice ops g1) as [[op g2] | e] eqn:Hop; cbn [rbind] in Hm;
      [ | discriminate ].
    injection Hm as <- <-. apply choice_in in Hop.
    destruct (insert_in _ _ _ _ Hy) as [-> | Hy0]; [ right | left ]; assumption.
  - (* remove *)
    destruct (3 <? len l).
    + destruct (randrange (len l) g) as [[pos g1] | e]; cbn [rbind] in Hm;
        [ | discriminate ].
      destruct (Py.delitem l pos) as [l1 | e] eqn:Hl1; cbn [rbind] in Hm;
        [ | discriminate ].
      injection Hm as <- <-. left. eapply delitem_in; eassumption.
    + injection Hm as <- <-. left. exact Hy.
  - (* replace *)
    destruct (randrange (len l) g) as [[pos g1] | e]; cbn [rbind] in Hm;
      [ | discriminate ].
    destruct (choice ops g1) as [[op g2] | e] eqn:Hop; cbn [rbind] in Hm;
      [ | discriminate ].
    destruct (Py.setitem l pos op) as [l1 | e] eqn:Hl1; cbn [rbind] in Hm;
      [ | discriminate ].
    injection Hm as <- <-. apply choice_in in Hop.
    destruct (setitem_in _ _ _ _ _ Hl1 Hy) as [-> | Hy0];
      [ right | left ]; assumption.
Qed.

Lemma setitem_split {A} (l1 l2 : list A) (a x : A) (i : Z) :
  len l1 = i ->
  Py.setitem (l1 ++ a :: l2) i x = Ok (l1 ++ x :: l2).
Proof.
  unfold Py.setitem, len. intros <-.
  rewrite length_app. cbn [length].
  destruct (Z.leb_spec 0 (Z.of_nat (length l1))); [ | lia ].
  destruct (Z.ltb_spec (Z.of_nat (length l1))
              (Z.of_nat (length l1 + S (length l2)))); [ | lia ].
  cbn [andb]. rewrite Nat2Z.id.
  rewrite firstn_app, Nat.sub_diag, firstn_all. cbn [firstn].
  rewrite app_nil_r.
  replace (S (length l1)) with (length l1 + 1)%nat by lia.
  rewrite skipn_app, skipn_all2 by lia.
  replace (length l1 + 1 - length l1)%nat with 1%nat by lia.
  reflexivity.
Qed.

Lemma perm_exchange {A} (l1 l2 l3 : list A) (a b : A) :
  Permutation (l1 ++ a :: l2 ++ b :: l3) (l1 ++ b :: l2 ++ a :: l3).
Proof.
  apply Permutation_app_head.
  eapply perm_trans;
    [ apply perm_skip, Permutation_sym, Permutation_middle | ].
  eapply perm_trans; [ apply perm_swap | ].
  apply perm_skip, Permutation_middle.
Qed.

(** [l[i], l[j] = l[j], l[i]] rearranges the list. *)
Lemma exchange_perm {A} (l : list A) (i j : Z) li lj l1 l2 :
  Py.getitem l j = Ok lj ->
  Py.getitem l i = Ok li ->
  Py.setitem l i lj = Ok l1 ->
  Py.setitem l1 j li = Ok l2 ->
  Permutation l l2.
Proof.
  intros Hlj Hli Hl1 Hl2.
  apply getitem_inv in Hlj as [Hj Hlj], Hli as [Hi Hli].
  destruct (nth_error_split l (Z.to_nat i) Hli) as (A1 & R1 & Hl & HlenA).
  assert (HA : len A1 = i) by (unfold len; lia).
  assert (Hl1' : l1 = A1 ++ lj :: R1).
  { rewrite Hl, (setitem_split A1 R1 li lj i HA) in Hl1. congruence. }
  destruct (Z.lt_trichotomy j i) as [Hlt | [Heq | Hgt]].
  - (* j < i: the position lies in the prefix *)
    rewrite Hl, nth_error_app1 in Hlj by lia.
    destruct (nth_error_split A1 (Z.to_nat j) Hlj) as (B1 & B2 & HA1 & HlenB).
    subst A1. rewrite <- app_assoc in Hl, Hl1'. cbn [app] in Hl, Hl1'.
    rewrite Hl1', (setitem_split B1 _ lj li j) in Hl2 by (unfold len; lia).
    injection Hl2 as <-. rewrite Hl. apply perm_exchange.
  - (* j = i *)
    subst j. assert (lj = li) by congruence. subst lj.
    rewrite Hl1', (setitem_split A1 R1 li li i HA) in Hl2.
    injection Hl2 as <-. rewrite Hl. apply Permutation_refl.
  - (* i < j: the position lies in the suffix *)
    rewrite Hl, nth_error_app2 in Hlj by lia.
    replace (Z.to_nat j - length A1)%nat
      with (S (Z.to_nat j - length A1 - 1)) in Hlj by lia.
    cbn [nth_error] in Hlj.
    destruct (nth_error_split R1 _ Hlj) as (B1 & B2 & HR1 & HlenB).
    subst R1.
    assert (Hl1'' : l1 = (A1 ++ lj :: B1) ++ lj :: B2).
    { rewrite Hl1', <- app_assoc. reflexivity. }
    rewrite Hl1'', (setitem_split (A1 ++ lj :: B1) B2 lj li j) in Hl2.
    + injection Hl2 as <-. rewrite Hl, <- app_assoc. cbn [app].
      apply perm_exchange.
    + unfold len in *. rewrite length_app. cbn [length]. lia.
Qed.

Lemma apply_swap_perm (l : list string) (g : G) l' g' :
  apply_mutation swap l g = Ok (l', g') -> Permutation l l'.
Proof.
  unfold apply_mutation.
  destruct (1 <? len l).
  - destruct (rand_sample2 (len l) g) as [[i j] g1].
    destruct (Py.getitem l j) as [lj | e] eqn:Hlj; cbn [rbind];
      [ | discriminate ].
    destruct (Py.getitem l i) as [li | e] eqn:Hli; cbn [rbind];
      [ | discriminate ].
    destruct (Py.setitem l i lj) as [l1 | e] eqn:Hl1; cbn [rbind];
      [ | discriminate ].
    destruct (Py.setitem l1 j li) as [l2 | e] eqn:Hl2; cbn [rbind];
      [ | discriminate ].
    intros Hm. injection Hm as <- <-. exact (exchange_perm l i j li lj l1 l2 Hlj Hli Hl1 Hl2).
  - intros Hm. injection Hm as <- <-. apply Permutation_refl.
Qed.

Lemma noisy_performance_perm (l l' : list string) (u : float) :
  Permutation l l' -> noisy_performance l' u = noisy_performance l u.
Proof.
  intros Hp. unfold noisy_performance, len.
  rewrite (Permutation_length Hp).
  pose proof (proj1 (Permutation_count_occ string_dec l l') Hp) as Hc.
  rewrite !Hc. reflexivity.
Qed.

Lemma apply_add_ok (l : list string) (g : G) :
  exists l' g', apply_mutation add l g = Ok (l', g') /\ len l' = len l + 1.
Proof.
  unfold apply_mutation.
  rewrite randrange_ok by (unfold len; lia).
  destruct (randbelow (len l + 1) g) as [pos g1]. cbn [rbind].
  destruct (choice_ok ops g1 ops_nonempty) as [op [Hop _]].
  rewrite Hop. cbn [rbind].
  eexists _, _. split; [ reflexivity | ].
  unfold len. rewrite insert_length. lia.
Qed.

Lemma mutate_arch_post self (parent : Architecture) :
  exists child ge gd,
    mutate_arch self parent = Ok (child, advance self ge gd) /\
    constructed child /\
    elim_score child = 0%float /\
    layers child <> [] /\
    (layers parent = [] ->
     5 <= len (layers child) <= 20 /\
     Forall (fun op => In op ops) (layers child)) /\
    (layers parent <> [] ->
     len (layers parent) - 1 <= len (layers child) <= len (layers parent) + 1 /\
     (len (layers child) < len (layers parent) -> 3 < len (layers parent)) /\
     Forall (fun op => In op (layers parent) \/ In op ops) (layers child)).
Proof.
  unfold mutate_arch.
  destruct (layers parent) as [ | op0 l0] eqn:Hlayers; cbn [is_empty].
  - destruct (engine_create_random_arch_post self)
      as (a & ge & Ha & Hlen & Hall & Hc & _ & He).
    exists a, ge, (snd (rand_random (NASRefinerDomain.rng (domain self)))).
    split; [ exact Ha | ].
    split; [ exact Hc | ].
    split; [ exact He | ].
    split; [ apply length_pos_nonempty; lia | ].
    split; [ intros _; split; assumption | congruence ].
  - destruct (choice_ok [swap; add; remove; replace] (rng self))
      as [m [Hm _]]; [ discriminate | ].
    rewrite Hm. cbn [rbind].
    destruct (apply_mutation_ok m (op0 :: l0)
                (snd (randbelow (len [swap; add; remove; replace]) (rng self))))
      as [l' [g2 [Hl' Hlen]]]; [ discriminate | ].
    rewrite Hl'. cbn [rbind].
    pose proof (apply_mutation_members _ _ _ _ _ Hl') as Hmem.
    assert (Hbounds :
              len (op0 :: l0) - 1 <= len l' <= len (op0 :: l0) + 1 /\
              (len l' < len (op0 :: l0) -> 3 < len (op0 :: l0))).
    { destruct m; try lia.
      destruct (Z.ltb_spec 3 (len (op0 :: l0))); [ lia | ].
      destruct Hlen as [-> _]. lia. }
    assert (Hne : l' <> []).
    { apply length_pos_nonempty.
      assert (0 < len (op0 :: l0)) by (unfold len; cbn [length]; lia). lia. }
    rewrite estimate_performance_nonempty by exact Hne.
    eexists _, g2, _.
    split; [ reflexivity | ].
    cbn [layers set_accuracy new_Architecture accuracy elim_score].
    split.
    { split; [ split; [ apply noisy_performance_range | reflexivity ]
             | reflexivity ]. }
    split; [ reflexivity | ].
    split; [ exact Hne | ].
    split; [ discriminate | ].
    intros _. split; [ apply Hbounds | split; [ apply Hbounds | exact Hmem ] ].
Qed.

Lemma mutate_arch_constructed (s s' : @t G) parent a :
  mutate_arch s parent = Ok (a, s') -> constructed a.
Proof.
  intros Hm.
  destruct (mutate_arch_post s parent) as (child & ge & gd & Hc & Hcon & _).
  rewrite Hc in Hm. injection Hm as <- _. exact Hcon.
Qed.

(** *** The run *)

Lemma SFleb_trans f1 f2 f3 :
  SFleb f1 f2 = true -> SFleb f2 f3 = true -> SFleb f1 f3 = true.
Proof.
  unfold SFleb.
  destruct f1 as [s1 | s1 | | s1 m1 e1], f2 as [s2 | s2 | | s2 m2 e2],
           f3 as [s3 | s3 | | s3 m3 e3]; cbn;
    try reflexivity; try discriminate;
    try (destruct s1; cbn; reflexivity || discriminate);
    try (destruct s1, s2; cbn; reflexivity || discriminate);
    try (destruct s1, s2, s3; cbn; reflexivity || discriminate).
  all: destruct s1, s2, s3; cbn; try reflexivity; try discriminate;
       FloatFacts.cmp_cases; cbn; intros; subst;
       try reflexivity; try discriminate; try lia.
Qed.

Lemma leb_trans x y z :
  (x <=? y)%float = true -> (y <=? z)%float = true -> (x <=? z)%float = true.
Proof. rewrite !leb_spec. apply SFleb_trans. Qed.

Lemma better_leb b cb :
  not_nan (accuracy b) -> (accuracy b <=? accuracy (better b cb))%float = true.
Proof.
  intros Hb. unfold better.
  destruct (accuracy b <? accuracy cb)%float eqn:Hlt.
  - apply FloatFacts.ltb_leb, Hlt.
  - exact Hb.
Qed.

Lemma constructed_not_nan a : constructed a -> not_nan (accuracy a).
Proof. intros [[Hr _] _]. apply in_unit_range_not_nan, Hr. Qed.

Lemma slice_from_incl {A} (k : Z) (l : list A) x :
  In x (Py.slice_from k l) -> In x l.
Proof.
  intros Hx. rewrite <- (ListFacts.slice_app k l). apply in_or_app.
  right. exact Hx.
Qed.

Lemma scored_constructed d gen l l' :
  Forall2 (scored_by d gen) l l' ->
  Forall constructed l -> Forall constructed l'.
Proof.
  induction 1 as [ | a a' l l' (s & _ & ->) _ IH]; intros Hall.
  - constructor.
  - inversion Hall as [ | ? ? Ha Hl]; subst.
    constructor; [ exact Ha | apply IH, Hl ].
Qed.

Lemma create_population_constructed (n : nat) self pop self' :
  create_population n self = Ok (pop, self') -> Forall constructed pop.
Proof.
  revert self pop self'. induction n as [ | n IH]; intros self pop self' Hpop;
    cbn [create_population] in Hpop.
  - injection Hpop as <- _. constructor.
  - destruct (engine_create_random_arch_post self)
      as (a & ge & Ha & _ & _ & Hc & _).
    rewrite Ha in Hpop. cbn [rbind] in Hpop.
    destruct (create_population n _) as [[rest s2] | e] eqn:Hrest;
      cbn [rbind] in Hpop; [ | discriminate ].
    injection Hpop as <- _.
    constructor; [ exact Hc | eapply IH, Hrest ].
Qed.

Lemma run_init_inv self s0 :
  run_init self = Ok s0 ->
  exists pop self1 best,
    create_population (Z.to_nat (pop_size self)) self = Ok (pop, self1) /\
    Py.max_by accuracy pop = Ok best /\
    s0 = set_best_overall (set_population self1 pop) (Some best).
Proof.
  unfold run_init. intros Hinit.
  destruct (create_population _ self) as [[pop self1] | e];
    cbn [rbind] in Hinit; [ | discriminate ].
  change (population (set_population self1 pop)) with pop in Hinit.
  destruct (Py.max_by accuracy pop) as [best | e] eqn:Hbest;
    cbn [rbind] in Hinit; [ | discriminate ].
  injection Hinit as <-. exists pop, self1, best. repeat split.
  exact Hbest.
Qed.

(** The initial population is constructed, and its best member is at least
    as accurate as every member. *)
Lemma run_init_constructed self s0 :
  run_init self = Ok s0 ->
  all_constructed s0 /\
  exists best,
    best_overall s0 = Some best /\
    Forall (fun a => (accuracy a <=? accuracy best)%float = true)
           (population s0).
Proof.
  intros Hinit.
  destruct (run_init_inv _ _ Hinit) as (pop & self1 & best & Hpop & Hbest & ->).
  apply create_population_constructed in Hpop.
  cbn [population best_overall set_best_overall set_population].
  pose proof (max_by_in _ _ _ Hbest) as Hin.
  assert (Hbc : constructed best).
  { rewrite Forall_forall in Hpop. apply Hpop, Hin. }
  assert (Hnan : keys_not_nan accuracy pop).
  { eapply Forall_impl; [ | exact Hpop ]. apply constructed_not_nan. }
  split.
  - split; [ exact Hpop | ]. exists best. split; [ reflexivity | exact Hbc ].
  - exists best. split; [ reflexivity | ].
    pose proof (max_by_greatest _ _ _ Hnan Hbest) as Hmax.
    rewrite Forall_forall in *. intros a Ha.
    apply FloatFacts.ltb_false_leb.
    + apply constructed_not_nan, Hbc.
    + apply constructed_not_nan, Hpop, Ha.
    + apply Hmax, Ha.
Qed.

(** A generation builds its next population from constructed architectures
    only, and leaves a constructed best. *)
Lemma generation_step_constructed (gen : Z) (s : @t G) pop' s' :
  all_constructed s ->
  generation_step gen s = Ok (pop', s') ->
  all_constructed s' /\ Forall constructed pop'.
Proof.
  intros (Hpop & b & Hb & Hbc) Hstep.
  destruct (generation_step_inv _ _ _ _ Hstep)
    as (sel & s1 & ge & gd & cb & b0 & Hsel & Hfill & Hcb & Hb0 & ->).
  assert (b0 = b) by congruence. subst b0.
  destruct (select_inv _ _ _ _ Hsel)
    as (scored & k & c & Hscored & _ & _ & Hsorted & Helite & Helim & Hcand
        & Hs1).
  assert (Hsc : Forall constructed scored)
    by (eapply scored_constructed; eassumption).
  assert (Hso : Forall constructed (sel_sorted sel)).
  { rewrite Hsorted. eapply Permutation_Forall;
      [ apply Permutation_sym, ListFacts.sorted_desc_perm | exact Hsc ]. }
  assert (Hel : Forall constructed (sel_elite sel)).
  { rewrite Forall_forall in *. intros a Ha. apply Hso.
    rewrite Helite in Ha. eapply ListFacts.slice_to_incl, Ha. }
  assert (Hbuf : Forall constructed (paradox_buffer s1)).
  { rewrite Hs1. cbn [paradox_buffer set_paradox_buffer].
    rewrite Forall_forall in *. intros a Ha.
    apply ListFacts.slice_to_incl in Ha.
    apply (Permutation_in _ (ListFacts.sorted_asc_perm params _)) in Ha.
    rewrite Hcand in Ha. apply filter_In in Ha as [Ha _].
    rewrite Helim in Ha. apply Hso. eapply slice_from_incl, Ha. }
  destruct (fill_inv _ _ _ _ _ _ Hfill) as (_ & _ & added & Hadd & Hall).
  assert (Hpop' : Forall constructed pop').
  { rewrite Hadd. apply Forall_app. split; [ exact Hel | ].
    eapply Forall_impl; [ | exact Hall ].
    intros a [Ha | (parent & s2 & s3 & _ & Hm)].
    - rewrite Forall_forall in Hbuf. apply Hbuf, Ha.
    - eapply mutate_arch_constructed, Hm. }
  split; [ | exact Hpop' ].
  split.
  - rewrite Hs1. exact Hsc.
  - exists (better b cb). split; [ reflexivity | ].
    unfold better. destruct (accuracy b <? accuracy cb)%float; [ | exact Hbc ].
    apply max_by_in in Hcb. rewrite Forall_forall in Hpop'. apply Hpop', Hcb.
Qed.

Lemma run_generations_negative (n : Z) self :
  run_generations n self = run_generations (Z.of_nat (Z.to_nat n)) self.
Proof.
  destruct (Z.le_gt_cases 0 n) as [Hn | Hn].
  - rewrite Z2Nat.id by exact Hn. reflexivity.
  - unfold run_generations. rewrite !range_empty by lia. reflexivity.
Qed.

(** Under the preconditions of a complete run, [run] returns a constructed
    best architecture that is at least as accurate as every member of the
    initial population. *)
Lemma run_total self (k c : Z) :
  NASRefinerDomain.target_complexity (domain self) <> 0 ->
  0 < pop_size self ->
  keep_count self = Ok k -> 1 <= k ->
  paradox_capacity self = Ok c ->
  exists s0 s best,
    run_init self = Ok s0 /\
    run self
    = Ok ((Some best, {| paradox_count := len (paradox_buffer s) |}), s) /\
    loop_invariant self s /\
    constructed best /\
    Forall (fun a => (accuracy a <=? accuracy best)%float = true)
           (population s0).
Proof.
  intros Htc Hpos Hk Hk1 Hc.
  destruct (run_generations_total self k c (Z.to_nat (generations self))
              Htc Hpos Hk Hk1 Hc) as (s & Hs & Hinv).
  rewrite <- run_generations_negative in Hs.
  unfold run. rewrite Hs. cbn [rbind].
  unfold run_generations in Hs.
  destruct (run_init self) as [s0 | e] eqn:Hinit; cbn [rbind] in Hs;
    [ | discriminate ].
  destruct (run_init_constructed _ _ Hinit) as (Hcon0 & best0 & Hbest0 & Hmax0).
  pose (P := fun s : @t G =>
               all_constructed s /\
               exists b, best_overall s = Some b /\
                         (accuracy best0 <=? accuracy b)%float = true).
  assert (HP : P s).
  { eapply (run_loop_invariant P); [ | | exact Hs ].
    - intros gen s1 pop s2 (Hcon & b & Hb & Hle) Hstep.
      destruct (generation_step_constructed _ _ _ _ Hcon Hstep) as [Hcon' _].
      split; [ exact Hcon' | ].
      destruct (generation_step_inv _ _ _ _ Hstep)
        as (sel & s1' & ge & gd & cb & b0 & _ & _ & _ & Hb0 & ->).
      assert (b0 = b) by congruence. subst b0.
      exists (better b cb). split; [ reflexivity | ].
      eapply leb_trans; [ exact Hle | ].
      apply better_leb.
      destruct Hcon as (_ & b1 & Hb1 & Hc1).
      assert (b1 = b) by congruence. subst b1.
      apply constructed_not_nan, Hc1.
    - split; [ exact Hcon0 | ].
      exists best0. split; [ exact Hbest0 | ].
      destruct Hcon0 as (_ & b1 & Hb1 & Hc1).
      assert (b1 = best0) by congruence. subst b1.
      apply constructed_not_nan, Hc1. }
  destruct HP as ((_ & b1 & Hb1 & Hc1) & b & Hb & Hle).
  assert (b1 = b) by congruence. subst b1.
  exists s0, s, b. rewrite Hb.
  split; [ reflexivity | ].
  split; [ reflexivity | ].
  split; [ exact Hinv | ].
  split; [ exact Hc1 | ].
  eapply Forall_impl; [ | exact Hmax0 ].
  intros a Ha. exact (leb_trans _ _ _ Ha Hle).
Qed.


(** *** What [run] can raise *)

Lemma mapM_raise {A B} (f : A -> result B) (l : list A) e :
  mapM f l = Raise e -> exists a, In a l /\ f a = Raise e.
Proof.
  induction l as [ | x l IH]; cbn [mapM]; [ discriminate | ].
  destruct (f x) as [y | e1] eqn:Hx; cbn [rbind].
  - destruct (mapM f l) as [ys | e2]; cbn [rbind]; [ discriminate | ].
    intros He. injection He as ->.
    destruct (IH eq_refl) as (a & Hin & Ha).
    exists a. split; [ right; exact Hin | exact Ha ].
  - intros He. injection He as ->.
    exists x. split; [ left; reflexivity | exact Hx ].
Qed.

Lemma compute_elimination_score_raise d a gen e :
  NASRefinerDomain.compute_elimination_score d a gen = Raise e ->
  e = ZeroDivisionError /\ NASRefinerDomain.target_complexity d = 0.
Proof.
  unfold NASRefinerDomain.compute_elimination_score, Py.truediv.
  destruct (Z.eqb_spec (NASRefinerDomain.target_complexity d) 0) as [Htc | _];
    cbn [rbind].
  - intros He. injection He as <-. split; [ reflexivity | exact Htc ].
  - change (len ops =? 0) with false. cbn [rbind]. discriminate.
Qed.

Lemma to_float_raise z e : Py.to_float z = Raise e -> e = OverflowError.
Proof.
  unfold Py.to_float.
  destruct (Prim2SF (Py.float_of_Z z)); intros He;
    (discriminate He || (injection He as <-; reflexivity)).
Qed.

Lemma int_raise x e :
  Py.int x = Raise e -> e = ValueError \/ e = OverflowError.
Proof.
  unfold Py.int.
  destruct (Prim2SF x); intros He;
    (discriminate He || (injection He as <-; auto)).
Qed.

Lemma keep_count_raise self e :
  keep_count self = Raise e -> e = ValueError \/ e = OverflowError.
Proof.
  unfold keep_count.
  destruct (Py.to_float (pop_size self)) as [p | e1] eqn:Hp; cbn [rbind].
  - apply int_raise.
  - intros He. injection He as <-. right. eapply to_float_raise, Hp.
Qed.

Lemma paradox_capacity_raise self e :
  paradox_capacity self = Raise e -> e = ValueError \/ e = OverflowError.
Proof.
  unfold paradox_capacity.
  destruct (Py.to_float (pop_size self)) as [p | e1] eqn:Hp; cbn [rbind].
  - destruct (Py.int (paradox_rate self * p)%float) as [k | e2] eqn:Hk;
      cbn [rbind]; [ discriminate | ].
    intros He. injection He as <-. eapply int_raise, Hk.
  - intros He. injection He as <-. right. eapply to_float_raise, Hp.
Qed.

Lemma select_raise (gen : Z) self e :
  select gen self = Raise e ->
  (e = ZeroDivisionError /\
   NASRefinerDomain.target_complexity (domain self) = 0) \/
  e = ValueError \/ e = OverflowError.
Proof.
  unfold select.
  match goal with
  | |- rbind (mapM ?f ?l) _ = _ -> _ =>
      destruct (mapM f l) as [scored | e1] eqn:Hscored; cbn [rbind]
  end.
  - change (keep_count (set_population self scored)) with (keep_count self).
    change (paradox_capacity (set_population self scored))
      with (paradox_capacity self).
    destruct (keep_count self) as [k | e2] eqn:Hk; cbn [rbind].
    + destruct (paradox_capacity self) as [c | e3] eqn:Hc; cbn [rbind];
        [ discriminate | ].
      intros He. injection He as <-. right. eapply paradox_capacity_raise, Hc.
    + intros He. injection He as <-. right. eapply keep_count_raise, Hk.
  - intros He. injection He as <-.
    apply mapM_raise in Hscored as (a & _ & Ha).
    destruct (NASRefinerDomain.compute_elimination_score (domain self) a gen)
      as [s | e2] eqn:Hs; cbn [rbind] in Ha; [ discriminate | ].
    injection Ha as <-. left.
    eapply compute_elimination_score_raise, Hs.
Qed.

Lemma choice_raise {A} (l : list A) (g : G) e :
  choice l g = Raise e -> e = IndexError /\ l = [].
Proof.
  destruct l as [ | a l].
  - intros He. injection He as <-. split; reflexivity.
  - destruct (choice_ok (a :: l) g) as [x [Hx _]]; [ discriminate | ].
    rewrite Hx. discriminate.
Qed.

Lemma max_by_raise {A} (key : A -> float) (l : list A) e :
  Py.max_by key l = Raise e -> e = ValueError /\ l = [].
Proof.
  destruct l; cbn [Py.max_by]; [ | discriminate ].
  intros He. injection He as <-. split; reflexivity.
Qed.

(** The refill never exhausts its bound: it fails only when a [choice] is
    made from an empty elite. *)
Lemma fill_raise (fuel : nat) (elite : list Architecture) :
  forall population self e,
    pop_size self - len population <= Z.of_nat fuel ->
    fill fuel elite population self = Raise e ->
    e = IndexError /\ elite = [].
Proof.
  induction fuel as [ | fuel IH]; intros population self e Hfuel Hfill;
    cbn [fill] in Hfill;
    destruct (Z.ltb_spec (len population) (pop_size self)) as [Hlt | Hge];
    try discriminate; try lia.
  destruct (rand_random (rng self)) as [u g1].
  match type of Hfill with
  | (if ?c then _ else _) = _ => destruct c eqn:Hcond
  end.
  - apply andb_prop in Hcond as [_ Hbuf]. apply negb_true_iff in Hbuf.
    apply is_empty_false in Hbuf.
    destruct (choice_ok _ (rng (set_rng self g1)) Hbuf) as [p [Hp _]].
    rewrite Hp in Hfill. cbn [rbind] in Hfill.
    eapply IH; [ | exact Hfill ].
    rewrite len_app. change (len [p]) with 1. cbn [pop_size set_rng]. lia.
  - destruct (choice elite (rng (set_rng self g1)))
      as [[parent g2] | e1] eqn:Hp; cbn [rbind] in Hfill.
    + destruct (mutate_arch_ok (set_rng (set_rng self g1) g2) parent)
        as [child [ge [gd [Hm _]]]].
      rewrite Hm in Hfill. cbn [rbind] in Hfill.
      eapply IH; [ | exact Hfill ].
      rewrite len_app. change (len [child]) with 1.
      cbn [pop_size set_rng set_domain advance]. lia.
    + injection Hfill as <-. eapply choice_raise, Hp.
Qed.

Lemma generation_step_raise (gen : Z) self e b :
  best_overall self = Some b ->
  generation_step gen self = Raise e ->
  run_error e /\
  (e = ZeroDivisionError ->
   NASRefinerDomain.target_complexity (domain self) = 0).
Proof.
  unfold generation_step, run_error. intros Hb Hstep.
  destruct (select gen self) as [[sel s1] | e1] eqn:Hsel;
    cbn [rbind] in Hstep.
  - pose proof (select_inv _ _ _ _ Hsel)
      as (scored & k & c & _ & _ & _ & _ & _ & _ & _ & Hs1).
    assert (Hps : pop_size s1 = pop_size self) by (subst s1; reflexivity).
    assert (Hbo : best_overall s1 = Some b) by (subst s1; exact Hb).
    destruct (fill (Z.to_nat (pop_size s1)) (sel_elite sel) (sel_elite sel) s1)
      as [[pop2 s2] | e2] eqn:Hfill; cbn [rbind] in Hstep.
    + destruct (fill_inv _ _ _ _ _ _ Hfill) as [[ge [gd Hs2]] _].
      destruct (Py.max_by accuracy pop2) as [cb | e3] eqn:Hcb;
        cbn [rbind] in Hstep.
      * unfold update_best in Hstep.
        replace (best_overall s2) with (Some b) in Hstep
          by (rewrite Hs2; symmetry; exact Hbo).
        destruct (accuracy b <? accuracy cb)%float; discriminate Hstep.
      * injection Hstep as <-. apply max_by_raise in Hcb as [-> _].
        split; [ auto | discriminate ].
    + injection Hstep as <-.
      apply fill_raise in Hfill as [-> _].
      * split; [ auto | discriminate ].
      * assert (0 <= len (sel_elite sel)) by (unfold len; lia). lia.
  - injection Hstep as <-.
    destruct (select_raise _ _ _ Hsel) as [[-> Htc] | [-> | ->]].
    + split; [ auto | intros _; exact Htc ].
    + split; [ auto | discriminate ].
    + split; [ auto | discriminate ].
Qed.

Lemma run_loop_raise (gens : list Z) :
  forall (s : @t G) e,
    (exists b, best_overall s = Some b) ->
    run_loop gens s = Raise e ->
    run_error e /\
    (e = ZeroDivisionError ->
     NASRefinerDomain.target_complexity (domain s) = 0).
Proof.
  induction gens as [ | gen gens IH]; intros s e [b Hb] Hrun;
    cbn [run_loop] in Hrun; [ discriminate | ].
  destruct (generation_step gen s) as [[pop s1] | e1] eqn:Hstep;
    cbn [rbind] in Hrun.
  - destruct (generation_step_frame _ _ _ _ Hstep)
      as ((_ & _ & _ & _ & Htc) & _).
    destruct (generation_step_inv _ _ _ _ Hstep)
      as (sel & s1' & ge & gd & cb & b0 & _ & _ & _ & _ & Hs1).
    rewrite <- Htc. apply IH; [ | exact Hrun ].
    rewrite Hs1. eexists. reflexivity.
  - injection Hrun as <-. eapply generation_step_raise; eassumption.
Qed.

Lemma run_init_raise self e :
  run_init self = Raise e -> e = ValueError /\ pop_size self <= 0.
Proof.
  intros Hinit.
  destruct (Z.ltb_spec 0 (pop_size self)) as [Hpos | Hle].
  - destruct (run_init_ok self Hpos) as (pop & ge & gd & best & Hok & _).
    rewrite Hok in Hinit. discriminate Hinit.
  - rewrite run_init_empty in Hinit by exact Hle.
    injection Hinit as <-. split; [ reflexivity | exact Hle ].
Qed.

(** X9.  [run] raises nothing but [ValueError], [IndexError],
    [ZeroDivisionError] and [OverflowError]: the refill loop always ends, and
    [best_overall] is never [None] when it is compared.  It raises
    [ZeroDivisionError] only over a domain whose target complexity is 0. *)
Theorem X9_run_raises_only self e :
  run self = Raise e ->
  run_error e /\
  (e = ZeroDivisionError ->
   NASRefinerDomain.target_complexity (domain self) = 0).
Proof.
  unfold run, run_generations. intros Hrun.
  destruct (run_init self) as [s0 | e0] eqn:Hinit; cbn [rbind] in Hrun.
  - destruct (run_init_frame _ _ Hinit)
      as ((_ & _ & _ & _ & Htc) & _ & _ & best & Hbest & _).
    destruct (run_loop (Py.range 1 (generations self + 1)) s0)
      as [s | e1] eqn:Hloop; cbn [rbind] in Hrun; [ discriminate | ].
    injection Hrun as <-. rewrite <- Htc.
    eapply run_loop_raise; [ | exact Hloop ].
    exists best. exact Hbest.
  - injection Hrun as <-. apply run_init_raise in Hinit as [-> _].
    split; [ left; reflexivity | discriminate ].
Qed.

Lemma range_cons (a b : Z) :
  a < b -> Py.range a b = a :: Py.range (a + 1) b.
Proof.
  intros Hlt. unfold Py.range.
  replace (Z.to_nat (b - a)) with (S (Z.to_nat (b - (a + 1)))) by lia.
  cbn [seq map]. f_equal; [ lia | ].
  rewrite <- seq_shift, map_map. apply map_ext. intros i. lia.
Qed.

(** X12.  Over a domain whose target complexity is 0, a run with
    [pop_size > 0] and at least one generation raises [ZeroDivisionError],
    whatever the generators draw: the constructor of the domain accepts the
    value, and the first elimination score divides by it. *)
Theorem X12_zero_target_raises self :
  NASRefinerDomain.target_complexity (domain self) = 0 ->
  0 < pop_size self ->
  1 <= generations self ->
  run self = Raise ZeroDivisionError.
Proof.
  intros Htc Hpos Hgens.
  destruct (run_init_ok self Hpos) as (pop & ge & gd & best & Hinit & Hlen & _).
  unfold run, run_generations. rewrite Hinit. cbn [rbind].
  rewrite range_cons by lia. cbn [run_loop].
  unfold generation_step, select.
  cbn [population set_best_overall set_population].
  destruct pop as [ | a pop]; [ cbn in Hlen; lia | ].
  cbn [mapM]. rewrite compute_elimination_score_zero; [ reflexivity | ].
  exact Htc.
Qed.

(** *** A generation without an elite *)

Lemma slice_to_zero {A} (l : list A) : Py.slice_to 0 l = [].
Proof. reflexivity. Qed.

Lemma keep_zero_generation (gen : Z) self pop' self' :
  keep_count self = Ok 0 ->
  generation_step gen self = Ok (pop', self') ->
  Forall (fun a => In a (paradox_buffer self')) pop' /\
  len pop' = Z.max 0 (pop_size self).
Proof.
  intros Hk Hstep.
  destruct (generation_step_inv _ _ _ _ Hstep)
    as (sel & s1 & ge & gd & cb & b & Hsel & Hfill & _ & _ & ->).
  destruct (select_inv _ _ _ _ Hsel)
    as (scored & k & c & _ & Hk' & _ & _ & Helite & _ & _ & Hs1).
  assert (k = 0) by congruence. subst k.
  rewrite slice_to_zero in Helite. rewrite Helite in Hfill.
  destruct (fill_inv _ _ _ _ _ _ Hfill) as (_ & Hlen & added & -> & Hall).
  cbn [paradox_buffer set_best_overall advance set_domain set_rng].
  split.
  - eapply Forall_impl; [ | exact Hall ].
    intros a [Ha | (parent & _ & _ & [] & _)]. exact Ha.
  - rewrite Hlen, Hs1. reflexivity.
Qed.

(** *** The partition and the paradox buffer *)

(** X10.  For every [keep_count], negative or larger than the population
    included, the two slices partition the sorted population: the elite
    followed by the eliminated is the sorted list, a permutation of the
    stored population, whose encodings are those the generation found.
    Every member of the new paradox buffer is an eliminated member whose
    accuracy is strictly below the mean accuracy and whose parameter count is
    strictly below the 25th percentile of the sizes. *)
Theorem X10_partition_for_any_keep_count (gen : Z) self sel self1 :
  select gen self = Ok (sel, self1) ->
  sel_elite sel ++ sel_eliminated sel = sel_sorted sel /\
  Permutation (sel_elite sel ++ sel_eliminated sel) (population self1) /\
  map layers (population self1) = map layers (population self) /\
  Forall (fun a =>
            In a (sel_eliminated sel) /\
            (accuracy a <? np_mean (map accuracy (sel_sorted sel)))%float
            = true /\
            (Py.float_of_Z (params a)
             <? np_percentile (map params (sel_sorted sel)) 25)%float = true)
         (paradox_buffer self1).
Proof.
  intros Hsel.
  destruct (select_inv _ _ _ _ Hsel)
    as (scored & k & c & Hscored & _ & _ & Hsorted & Helite & Helim & Hcand
        & ->).
  cbn [population paradox_buffer set_paradox_buffer set_population].
  assert (Happ : sel_elite sel ++ sel_eliminated sel = sel_sorted sel).
  { rewrite Helite, Helim. apply ListFacts.slice_app. }
  split; [ exact Happ | ].
  split; [ rewrite Happ, Hsorted; apply ListFacts.sorted_desc_perm | ].
  split; [ apply (scored_same_members _ _ _ _ Hscored) | ].
  rewrite Forall_forall. intros a Ha.
  apply ListFacts.slice_to_incl in Ha.
  apply (Permutation_in _ (ListFacts.sorted_asc_perm params _)) in Ha.
  rewrite Hcand in Ha. apply filter_In in Ha as [Ha Hpar].
  split; [ exact Ha | ].
  unfold paradoxical_in, NASRefinerDomain.is_paradoxical in Hpar.
  destruct (is_empty (map accuracy (sel_sorted sel))
            || is_empty (map params (sel_sorted sel))); [ discriminate | ].
  apply andb_prop in Hpar. exact Hpar.
Qed.

(** *** The sampling loops of [run_nas_validation] *)

Lemma default_run_total d (seed : Z) :
  NASRefinerDomain.target_complexity d = 1000000 ->
  exists e best m e',
    Validation.default_engine d seed = Ok e /\
    run e = Ok ((Some best, m), e') /\
    in_unit_range (accuracy best) /\
    NASRefinerDomain.target_complexity (domain e') = 1000000.
Proof.
  intros Htc. unfold Validation.default_engine, __init__.
  eexists. 
  match goal with
  | |- exists best m e', Ok ?e = Ok _ /\ _ =>
      destruct (run_total e 32 7) as (s0 & s & best & _ & Hrun & Hinv & Hc & _)
  end.
  - cbn [domain]. rewrite Htc. discriminate.
  - reflexivity.
  - reflexivity.
  - lia.
  - reflexivity.
  - eexists best, _, s. split; [ reflexivity | ].
    split; [ exact Hrun | ].
    split; [ apply Hc | ].
    destruct Hinv as ((_ & _ & _ & _ & Htc') & _).
    rewrite Htc'. exact Htc.
Qed.

Lemma fe_trials_ok (trials : list Z) :
  forall d (accs : list float),
    NASRefinerDomain.target_complexity d = 1000000 ->
    Forall in_unit_range accs ->
    exists accs' d',
      Validation.fe_trials trials d accs = Ok (accs', d') /\
      len accs' = len accs + len trials /\
      Forall in_unit_range accs' /\
      NASRefinerDomain.target_complexity d' = 1000000.
Proof.
  induction trials as [ | t trials IH]; intros d accs Htc Haccs;
    cbn [Validation.fe_trials].
  - exists accs, d. repeat split; try assumption. cbn. lia.
  - destruct (default_run_total d (6000 + t) Htc)
      as (e & best & m & e' & He & Hrun & Hbest & Htc').
    rewrite He. cbn [rbind]. rewrite Hrun. cbn [rbind].
    destruct (IH (domain e') (accs ++ [accuracy best]) Htc')
      as (accs' & d' & Hok & Hlen & Hall & Htc'').
    { apply Forall_app. split; [ exact Haccs | ].
      constructor; [ exact Hbest | constructor ]. }
    exists accs', d'. split; [ exact Hok | ].
    split; [ | split; assumption ].
    rewrite Hlen, len_app. unfold len. cbn [length]. lia.
Qed.

Lemma mc_search_ok (n : nat) :
  forall d (best_mc : float),
    in_unit_range best_mc ->
    exists b' d',
      Validation.mc_search n d best_mc = Ok (b', d') /\
      in_unit_range b' /\
      (best_mc <=? b')%float = true /\
      NASRefinerDomain.target_complexity d'
      = NASRefinerDomain.target_complexity d.
Proof.
  induction n as [ | n IH]; intros d best_mc Hb; cbn [Validation.mc_search].
  - exists best_mc, d. repeat split; try apply Hb.
    apply in_unit_range_not_nan, Hb.
  - destruct (domain_create_random_arch_post d)
      as (a & g2 & Ha & _ & _ & ((Hacc & _) & _) & _).
    rewrite Ha. cbn [rbind].
    destruct (best_mc <? accuracy a)%float eqn:Hlt.
    + destruct (IH (NASRefinerDomain.set_rng d (snd (rand_random g2)))
                  (accuracy a) Hacc) as (b' & d' & Hok & Hr & Hle & Htc).
      exists b', d'. split; [ exact Hok | ].
      split; [ exact Hr | ].
      split; [ | exact Htc ].
      eapply leb_trans; [ apply FloatFacts.ltb_leb, Hlt | exact Hle ].
    + destruct (IH (NASRefinerDomain.set_rng d (snd (rand_random g2)))
                  best_mc Hb) as (b' & d' & Hok & Hr & Hle & Htc).
      exists b', d'. repeat split; assumption || apply Hr.
Qed.

Lemma mc_trials_ok (trials : list Z) :
  forall d (accs : list float),
    Forall in_unit_range accs ->
    exists accs' d',
      Validation.mc_trials trials d accs = Ok (accs', d') /\
      len accs' = len accs + len trials /\
      Forall in_unit_range accs'.
Proof.
  induction trials as [ | t trials IH]; intros d accs Haccs;
    cbn [Validation.mc_trials].
  - exists accs, d. repeat split; try assumption. cbn. lia.
  - destruct (mc_search_ok 500 d 0%float) as (b & d1 & Hb & Hr & _ & _).
    { split; reflexivity. }
    rewrite Hb. cbn [rbind].
    destruct (IH d1 (accs ++ [b])) as (accs' & d' & Hok & Hlen & Hall).
    { apply Forall_app. split; [ exact Haccs | ].
      constructor; [ exact Hr | constructor ]. }
    exists accs', d'. split; [ exact Hok | ].
    split; [ | exact Hall ].
    rewrite Hlen, len_app. unfold len. cbn [length]. lia.
Qed.

Lemma len_range (a b : Z) : len (Py.range a b) = Z.max 0 (b - a).
Proof.
  unfold len, Py.range. rewrite length_map, length_seq. lia.
Qed.


(** *** The best architecture over the generations *)

Lemma range_app (a b c : Z) :
  a <= b <= c -> Py.range a c = Py.range a b ++ Py.range b c.
Proof.
  intros Habc. remember (Z.to_nat (b - a)) as n eqn:Hn. revert a Habc Hn.
  induction n as [ | n IH]; intros a Habc Hn.
  - assert (a = b) by lia. subst a. rewrite (range_empty b b) by lia.
    reflexivity.
  - rewrite (range_cons a c), (range_cons a b) by lia. cbn [app]. f_equal.
    apply IH; lia.
Qed.

Lemma run_loop_constructed (gens : list Z) (s s' : @t G) :
  all_constructed s -> run_loop gens s = Ok s' -> all_constructed s'.
Proof.
  apply (run_loop_invariant all_constructed).
  intros gen s1 pop s2 Hcon Hstep.
  apply (generation_step_constructed _ _ _ _ Hcon Hstep).
Qed.

Lemma run_generations_constructed (n : Z) self s :
  run_generations n self = Ok s -> all_constructed s.
Proof.
  unfold run_generations. intros Hrun.
  destruct (run_init self) as [s0 | e] eqn:Hinit; cbn [rbind] in Hrun;
    [ | discriminate ].
  eapply run_loop_constructed; [ | exact Hrun ].
  apply (run_init_constructed _ _ Hinit).
Qed.

(** Over any number of generations the accuracy of the best architecture on
    record does not decrease. *)
Lemma run_loop_best_mono (gens : list Z) :
  forall (s s' : @t G) b b',
    all_constructed s ->
    run_loop gens s = Ok s' ->
    best_overall s = Some b -> best_overall s' = Some b' ->
    (accuracy b <=? accuracy b')%float = true.
Proof.
  induction gens as [ | gen gens IH]; intros s s' b b' Hcon Hrun Hb Hb';
    cbn [run_loop] in Hrun.
  - injection Hrun as <-. assert (b' = b) by congruence. subst b'.
    destruct Hcon as (_ & b1 & Hb1 & Hc1).
    assert (b1 = b) by congruence. subst b1.
    apply constructed_not_nan, Hc1.
  - destruct (generation_step gen s) as [[pop s1] | e] eqn:Hstep;
      cbn [rbind] in Hrun; [ | discriminate ].
    destruct (generation_step_constructed _ _ _ _ Hcon Hstep) as [Hcon1 _].
    destruct (generation_step_inv _ _ _ _ Hstep)
      as (sel & s1' & ge & gd & cb & b0 & _ & _ & _ & Hb0 & Hs1).
    assert (b0 = b) by congruence. subst b0.
    eapply leb_trans.
    + apply (better_leb b cb).
      destruct Hcon as (_ & b1 & Hb1 & Hc1).
      assert (b1 = b) by congruence. subst b1.
      apply constructed_not_nan, Hc1.
    + eapply IH; [ exact Hcon1 | exact Hrun | | exact Hb' ].
      rewrite Hs1. reflexivity.
Qed.

(** The best architecture a generation leaves is at least as accurate as
    every member of the population that generation built. *)
Lemma generation_step_dominates (gen : Z) (s : @t G) pop' s' b' :
  all_constructed s ->
  generation_step gen s = Ok (pop', s') ->
  best_overall s' = Some b' ->
  Forall (fun a => (accuracy a <=? accuracy b')%float = true) pop'.
Proof.
  intros Hcon Hstep Hb'.
  destruct (generation_step_constructed _ _ _ _ Hcon Hstep) as [_ Hpop'].
  destruct (generation_step_inv _ _ _ _ Hstep)
    as (sel & s1 & ge & gd & cb & b & _ & _ & Hcb & Hb & Hs').
  rewrite Hs' in Hb'. cbn [best_overall set_best_overall] in Hb'.
  injection Hb' as <-.
  assert (Hnan : keys_not_nan accuracy pop').
  { eapply Forall_impl; [ | exact Hpop' ]. apply constructed_not_nan. }
  pose proof (max_by_greatest _ _ _ Hnan Hcb) as Hmax.
  pose proof (max_by_in _ _ _ Hcb) as Hin.
  assert (Hcbn : not_nan (accuracy cb)).
  { rewrite Forall_forall in Hpop'. apply constructed_not_nan, Hpop', Hin. }
  assert (Hbn : not_nan (accuracy b)).
  { destruct Hcon as (_ & b1 & Hb1 & Hc1).
    assert (b1 = b) by congruence. subst b1.
    apply constructed_not_nan, Hc1. }
  assert (Hle : (accuracy cb <=? accuracy (better b cb))%float = true).
  { unfold better. destruct (accuracy b <? accuracy cb)%float eqn:Hlt.
    - exact Hcbn.
    - apply FloatFacts.ltb_false_leb; assumption. }
  rewrite Forall_forall in *. intros a Ha.
  eapply leb_trans; [ | exact Hle ].
  apply FloatFacts.ltb_false_leb.
  - exact Hcbn.
  - apply constructed_not_nan, Hpop', Ha.
  - apply Hmax, Ha.
Qed.

(** *** The properties *)

(** X2.  [NASRefinerDomain._create_random_arch] never raises.  It returns an
    architecture of 3 to 10 layers, each one of the four operations, whose
    parameter count is the cost of its layers (between 1500 and 1000000) and
    whose accuracy lies in [0, 0.98]; [novelty_score] and [elim_score] keep
    their default 0.0.  Of the domain only the generator changes. *)
Theorem X2_domain_sampler_postcondition d :
  exists a g,
    NASRefinerDomain._create_random_arch d
    = Ok (a, NASRefinerDomain.set_rng d g) /\
    3 <= len (layers a) <= 10 /\
    Forall (fun op => In op ops) (layers a) /\
    params a = count_params (layers a) /\
    1500 <= params a <= 1000000 /\
    in_unit_range (accuracy a) /\
    novelty_score a = 0%float /\
    elim_score a = 0%float.
Proof.
  destruct (domain_create_random_arch_post d)
    as (a & g2 & Ha & Hlen & Hall & ((Hacc & Hpar) & Hnov) & _ & Hel).
  exists a, (snd (rand_random g2)).
  pose proof (count_params_bounds _ Hall) as Hb.
  split; [ exact Ha | ].
  split; [ exact Hlen | ].
  split; [ exact Hall | ].
  split; [ exact Hpar | ].
  split; [ lia | ].
  split; [ exact Hacc | split; assumption ].
Qed.

(** X3.  [ForgettingEngineNAS._create_random_arch] never raises.  It draws
    the depth, 5 to 20, and the layers from the engine's generator, and one
    [random()] from the domain's generator for the noise of the accuracy; the
    parameter count is the cost of the layers (between 2500 and 2000000) and
    the accuracy lies in [0, 0.98].  Nothing else of the engine changes. *)
Theorem X3_engine_sampler_postcondition self :
  exists a ge,
    _create_random_arch self
    = Ok (a, advance self ge
               (snd (rand_random (NASRefinerDomain.rng (domain self))))) /\
    5 <= len (layers a) <= 20 /\
    Forall (fun op => In op ops) (layers a) /\
    params a = count_params (layers a) /\
    2500 <= params a <= 2000000 /\
    accuracy a
    = noisy_performance (layers a)
        (fst (rand_random (NASRefinerDomain.rng (domain self)))) /\
    in_unit_range (accuracy a) /\
    novelty_score a = 0%float /\
    elim_score a = 0%float.
Proof.
  destruct (engine_create_random_arch_post self)
    as (a & ge & Ha & Hlen & Hall & ((Hacc & Hpar) & Hnov) & Hnoisy & Hel).
  exists a, ge.
  pose proof (count_params_bounds _ Hall) as Hb.
  split; [ exact Ha | ].
  split; [ exact Hlen | ].
  split; [ exact Hall | ].
  split; [ exact Hpar | ].
  split; [ lia | ].
  split; [ exact Hnoisy | ].
  split; [ exact Hacc | split; assumption ].
Qed.

(** X4.  The parameter count [sum(params_per_layer.get(op, 10000) ...)] is
    additive over concatenation and does not depend on the order of the
    layers; a layer that is not one of the four operations counts 10000; an
    encoding of [n] layers over the four operations counts between [500 * n]
    and [100000 * n]. *)
Theorem X4_count_params_additive :
  (forall l1 l2 : list string,
     count_params (l1 ++ l2) = count_params l1 + count_params l2) /\
  (forall l l' : list string,
     Permutation l l' -> count_params l' = count_params l) /\
  (forall (op : string) (l : list string),
     ~ In op ops -> count_params (op :: l) = 10000 + count_params l) /\
  (forall l : list string,
     Forall (fun op => In op ops) l ->
     500 * len l <= count_params l <= 100000 * len l).
Proof.
  split; [ exact count_params_app | ].
  split; [ exact count_params_perm | ].
  split; [ | exact count_params_bounds ].
  intros op l Hop. rewrite count_params_cons, (layer_cost_unknown _ Hop).
  reflexivity.
Qed.

(** X5.  [mutate_arch] never raises and moves the two generators only.  The
    child is never empty, its parameter count is the cost of its layers and
    its accuracy lies in [0, 0.98].  The child of a parent without layers is
    a fresh sample of 5 to 20 layers.  The child of any other parent differs
    from it by at most one layer in length, is shorter only when the parent
    has more than 3 layers, and every one of its layers is a layer of the
    parent or one of the four operations. *)
Theorem X5_mutate_arch_postcondition self (parent : Architecture) :
  exists child ge gd,
    mutate_arch self parent = Ok (child, advance self ge gd) /\
    layers child <> [] /\
    params child = count_params (layers child) /\
    in_unit_range (accuracy child) /\
    novelty_score child = 0%float /\
    elim_score child = 0%float /\
    (layers parent = [] ->
     5 <= len (layers child) <= 20 /\
     Forall (fun op => In op ops) (layers child)) /\
    (layers parent <> [] ->
     len (layers parent) - 1 <= len (layers child) <= len (layers parent) + 1 /\
     (len (layers child) < len (layers parent) -> 3 < len (layers parent)) /\
     Forall (fun op => In op (layers parent) \/ In op ops) (layers child)).
Proof.
  destruct (mutate_arch_post self parent)
    as (child & ge & gd & Hm & ((Hacc & Hpar) & Hnov) & Hel & Hne & Hempty
        & Hfull).
  exists child, ge, gd.
  split; [ exact Hm | ].
  split; [ exact Hne | ].
  split; [ exact Hpar | ].
  split; [ exact Hacc | ].
  split; [ exact Hnov | ].
  split; [ exact Hel | ].
  split; [ exact Hempty | exact Hfull ].
Qed.

(** X6.  The swap mutation never raises and rearranges the encoding: the
    result is a permutation of the layers, so the parameter count is the
    same and the accuracy estimate differs from the one of the original
    encoding only through its noise draw.  An encoding of fewer than two
    layers is left as it is and nothing is drawn. *)
Theorem X6_swap_is_permutation (l : list string) (g : G) :
  exists l' g',
    apply_mutation swap l g = Ok (l', g') /\
    Permutation l l' /\
    count_params l' = count_params l /\
    (forall u, noisy_performance l' u = noisy_performance l u) /\
    (len l < 2 -> l' = l /\ g' = g).
Proof.
  assert (Hok : exists l' g', apply_mutation swap l g = Ok (l', g') /\
                              (len l < 2 -> l' = l /\ g' = g)).
  { destruct l as [ | op l].
    - exists [], g. split; [ reflexivity | intros _; split; reflexivity ].
    - destruct (apply_mutation_ok swap (op :: l) g) as (l' & g' & Hl' & _);
        [ discriminate | ].
      exists l', g'. split; [ exact Hl' | ].
      intros Hshort. unfold apply_mutation in Hl'.
      destruct (Z.ltb_spec 1 (len (op :: l))); [ lia | ].
      injection Hl' as <- <-. split; reflexivity. }
  destruct Hok as (l' & g' & Hl' & Hshort).
  pose proof (apply_swap_perm _ _ _ _ Hl') as Hperm.
  exists l', g'.
  split; [ exact Hl' | ].
  split; [ exact Hperm | ].
  split; [ apply count_params_perm, Hperm | ].
  split; [ intros u; apply noisy_performance_perm, Hperm | exact Hshort ].
Qed.

(** X7.  After [n] calls of [mutate_arch] in a row on an architecture with
    at least one layer, the number of layers is at most [len + n] and at
    least [max(min(len, 3), len - n)].  The upper bound is reached: [n] add
    mutations in a row make the encoding exactly [n] layers longer, so the
    depth has no upper limit. *)
Theorem X7_mutation_length_bounds :
  (forall (n : nat) self (parent : Architecture),
     layers parent <> [] ->
     exists child self',
       mutate_times n self parent = Ok (child, self') /\
       Z.max (Z.min (len (layers parent)) 3) (len (layers parent) - Z.of_nat n)
       <= len (layers child) <= len (layers parent) + Z.of_nat n) /\
  (forall (n : nat) (l : list string) (g : G),
     exists l' g',
       add_times n l g = Ok (l', g') /\ len l' = len l + Z.of_nat n).
Proof.
  split.
  - induction n as [ | n IH]; intros self parent Hne; cbn [mutate_times].
    + exists parent, self. split; [ reflexivity | ].
      assert (0 <= len (layers parent)) by (unfold len; lia). lia.
    + destruct (mutate_arch_post self parent)
        as (a & ge & gd & Ha & _ & _ & Hne1 & _ & Hb).
      destruct (Hb Hne) as (Hlen & Hshort & _).
      rewrite Ha. cbn [rbind].
      destruct (IH (advance self ge gd) a Hne1) as (child & self' & Hc & Hlenc).
      exists child, self'. split; [ exact Hc | ]. lia.
  - induction n as [ | n IH]; intros l g; cbn [add_times].
    + exists l, g. split; [ reflexivity | lia ].
    + destruct (apply_add_ok l g) as (l1 & g1 & Hl1 & Hlen1).
      rewrite Hl1. cbn [rbind].
      destruct (IH l1 g1) as (l' & g' & Hl' & Hlen').
      exists l', g'. split; [ exact Hl' | lia ].
Qed.


(** X11.  When [keep_count] is 0 the elite is empty and nothing is mutated:
    a generation that completes consists of [pop_size] members that are all
    taken from the new paradox buffer, which is then not empty; and when the
    new paradox buffer is empty the generation raises [IndexError]. *)
Theorem X11_generation_without_elite (gen : Z) self :
  keep_count self = Ok 0 ->
  0 < pop_size self ->
  (forall pop' self',
     generation_step gen self = Ok (pop', self') ->
     len pop' = pop_size self /\
     paradox_buffer self' <> [] /\
     Forall (fun a => In a (paradox_buffer self')) pop') /\
  (forall sel self1,
     select gen self = Ok (sel, self1) ->
     paradox_buffer self1 = [] ->
     generation_step gen self = Raise IndexError).
Proof.
  intros Hk Hpos. split.
  - intros pop' self' Hstep.
    destruct (keep_zero_generation _ _ _ _ Hk Hstep) as [Hall Hlen].
    split; [ lia | ].
    split; [ | exact Hall ].
    destruct pop' as [ | a pop']; [ cbn in Hlen; lia | ].
    inversion Hall as [ | ? ? Ha _]; subst.
    intros Hnil. rewrite Hnil in Ha. exact Ha.
  - intros sel self1 Hsel Hbuf.
    eapply generation_step_empty_elite; try eassumption.
    destruct (select_inv _ _ _ _ Hsel)
      as (scored & k & c & _ & Hk' & _ & _ & Helite & _).
    assert (k = 0) by congruence. subst k. rewrite Helite. reflexivity.
Qed.

(** X13.  The two sampling loops of [run_nas_validation(n_trials)] never
    raise, for any generator and any [n_trials]: every Forgetting Engine
    trial, with the default hyperparameters ([keep_count] 32, capacity 7)
    over the shared domain of target complexity 1000000, returns a best
    architecture, and every random-search trial returns the best of 500
    samples.  Both lists have [max(0, n_trials)] entries, each an accuracy in
    [0, 0.98]. *)
Theorem X13_validation_samples (n_trials : Z) :
  exists fe_accs mc_accs,
    Validation.validation_samples (G:=G) n_trials = Ok (fe_accs, mc_accs) /\
    len fe_accs = Z.max 0 n_trials /\
    len mc_accs = Z.max 0 n_trials /\
    Forall in_unit_range fe_accs /\
    Forall in_unit_range mc_accs.
Proof.
  unfold Validation.validation_samples.
  destruct (fe_trials_ok (Py.range 0 n_trials)
              (NASRefinerDomain.__init__ 1000000 42) [])
    as (fe & d1 & Hfe & Hlfe & Hrfe & _); [ reflexivity | constructor | ].
  rewrite Hfe. cbn [rbind].
  destruct (mc_trials_ok (Py.range 0 n_trials) d1 [])
    as (mc & d2 & Hmc & Hlmc & Hrmc); [ constructor | ].
  rewrite Hmc. cbn [rbind].
  exists fe, mc. rewrite len_range in Hlfe, Hlmc.
  change (len []) with 0 in Hlfe, Hlmc.
  repeat split; try assumption; lia.
Qed.

(** X14.  The architecture [run] returns is at least as accurate as every
    member of every population the run built: for each generation of the
    run, all members of the population that generation assembled, elite,
    paradox-buffer copies and mutated children alike, have an accuracy that
    is at most the accuracy of the returned best. *)
Theorem X14_best_dominates_every_generation self (n : Z) s_n pop' s'
  best m s_end :
  0 <= n < generations self ->
  run_generations n self = Ok s_n ->
  generation_step (n + 1) s_n = Ok (pop', s') ->
  run self = Ok ((Some best, m), s_end) ->
  Forall (fun a => (accuracy a <=? accuracy best)%float = true) pop'.
Proof.
  intros Hn Hrun_n Hstep Hrun.
  pose proof (run_generations_constructed _ _ _ Hrun_n) as Hcon.
  destruct (generation_step_constructed _ _ _ _ Hcon Hstep) as [Hcon' _].
  pose proof Hcon' as (_ & b' & Hb' & _).
  pose proof (generation_step_dominates _ _ _ _ _ Hcon Hstep Hb') as Hdom.
  assert (Hle : (accuracy b' <=? accuracy best)%float = true).
  { unfold run in Hrun.
    destruct (run_generations (generations self) self) as [s | e] eqn:Hgens;
      cbn [rbind] in Hrun; [ | discriminate ].
    injection Hrun as Hbest _ <-.
    unfold run_generations in Hgens, Hrun_n.
    destruct (run_init self) as [s0 | e] eqn:Hinit;
      cbn [rbind] in Hgens, Hrun_n; [ | discriminate ].
    rewrite (range_app 1 (n + 1 + 1) (generations self + 1)) in Hgens by lia.
    rewrite range_snoc, !run_loop_app, Hrun_n in Hgens by lia.
    cbn [rbind run_loop] in Hgens. rewrite Hstep in Hgens.
    cbn [rbind] in Hgens.
    eapply run_loop_best_mono; [ exact Hcon' | exact Hgens | exact Hb' | ].
    exact Hbest. }
  eapply Forall_impl; [ | exact Hdom ].
  intros a Ha. exact (leb_trans _ _ _ Ha Hle).
Qed.

End Further.

(* ===================================================================== *)
(** ** Concrete runs *)
(* ===================================================================== *)

Import Scripted NumpyRef Concrete.

Lemma engine_with_constructed d ps gs fr pr seed :
  __init__ d ps gs fr pr seed = Ok (engine_with d ps gs fr pr (seeded seed)).
Proof. reflexivity. Qed.

(** The worked example of the paradox predicate: accuracies
    [0.9, 0.1, 0.1, 0.9] have mean 0.5, sizes [10, 1, 2, 20] have 25th
    percentile 1.75; of two candidates of accuracy 0.1, the one of size 1 is
    paradoxical and the one of size 2 is not. *)
Example is_paradoxical_worked_example :
  np_mean [0.9; 0.1; 0.1; 0.9]%float = 0.5%float /\
  np_percentile [10; 1; 2; 20] 25 = 1.75%float /\
  NASRefinerDomain.is_paradoxical domain42
    (set_accuracy (new_Architecture ["DROP"] 1) 0.1)
    [0.9; 0.1; 0.1; 0.9]%float [10; 1; 2; 20] = true /\
  NASRefinerDomain.is_paradoxical domain42
    (set_accuracy (new_Architecture ["DROP"] 2) 0.1)
    [0.9; 0.1; 0.1; 0.9]%float [10; 1; 2; 20] = false.
Proof. repeat split; vm_compute; reflexivity. Qed.

(** C4, the candidate of the worked example that is paradoxical. *)
Lemma C4_witness :
  NASRefinerDomain.is_paradoxical domain42
    (set_accuracy (new_Architecture ["DROP"] 1) 0.1)
    [0.9; 0.1; 0.1; 0.9]%float [10; 1; 2; 20] = true.
Proof.
  apply (proj2 (proj1 (C4_is_paradoxical_strict domain42 _ _ _))).
  repeat split; try discriminate; vm_compute; reflexivity.
Defined.

(** C4, the claim as stated fails: with sizes [10, 1, 1, 20] the 25th
    percentile is 1.0; a candidate of accuracy 0.1 (below the mean 0.5) and
    size 1 is at the percentile, yet [is_paradoxical] returns false. *)
Lemma C4_counterexample :
  NASRefinerDomain.is_paradoxical domain42
    (set_accuracy (new_Architecture ["DROP"] 1) 0.1)
    [0.9; 0.1; 0.1; 0.9]%float [10; 1; 1; 20] = false /\
  (0.1 <? np_mean [0.9; 0.1; 0.1; 0.9]%float)%float = true /\
  (Py.float_of_Z 1%Z <=? np_percentile [10; 1; 1; 20]%Z 25%Z)%float = true.
Proof. repeat split; vm_compute; reflexivity. Qed.

(** C10.  [estimate_performance] is not a function of the encoding alone.
    On an empty encoding it returns exactly 0.0 and leaves the domain as it
    is.  On a non-empty encoding it advances the domain's generator by one
    [random()] draw and its value is a function of the encoding and of the
    number drawn.  The value always lies in [0, 0.98].  The same encoding
    receives two different values when the draws are 0.0 and 0.5, as from
    two states of a generator. *)
Theorem C10_estimate_performance_draws_noise :
  (forall (G : Type) (R : RandomGen G) (d : @NASRefinerDomain.t G)
          (arch : Architecture),
     (layers arch = [] ->
      NASRefinerDomain.estimate_performance d arch = (0%float, d)) /\
     (layers arch <> [] ->
      NASRefinerDomain.estimate_performance d arch
      = (noisy_performance (layers arch)
           (fst (rand_random (NASRefinerDomain.rng d))),
         NASRefinerDomain.set_rng d
           (snd (rand_random (NASRefinerDomain.rng d))))) /\
     in_unit_range (fst (NASRefinerDomain.estimate_performance d arch))) /\
  (noisy_performance (layers parent4) 0
   <? noisy_performance (layers parent4) 0.5)%float = true /\
  (fst (NASRefinerDomain.estimate_performance domain_next_zero parent4)
   <? fst (NASRefinerDomain.estimate_performance domain_next_half parent4))%float
  = true.
Proof.
  split; [ | split; vm_compute; reflexivity ].
  intros G R d arch. split; [ | split ].
  - intros Hl. unfold NASRefinerDomain.estimate_performance.
    rewrite Hl. reflexivity.
  - intros Hl.
    unfold NASRefinerDomain.estimate_performance, uniform, noisy_performance.
    destruct (layers arch) as [ | op l]; [ congruence | ]. cbn [is_empty].
    destruct (rand_random (NASRefinerDomain.rng d)) as [u g]. reflexivity.
  - apply estimate_performance_spec.
Qed.

(** The two values of the second part of C10. *)
Example estimate_performance_two_values :
  fst (NASRefinerDomain.estimate_performance domain_next_zero parent4)
  = 0.78399999999999992%float /\
  fst (NASRefinerDomain.estimate_performance domain_next_half parent4)
  = 0.80399999999999994%float.
Proof. split; vm_compute; reflexivity. Qed.

(** *** Witnesses and counterexamples *)




(** When two runs share one domain object, as the trials of
    [run_nas_validation] do, the second starts from the generator state the
    first left and ends differently: here with a best accuracy of 0.8419
    instead of 0.8412. *)
Example shared_domain_changes_outcome :
  (r1 <- run engine4 ;;
   r2 <- run (engine_with (domain (snd r1)) 4 2 0.35 0.15 (seeded 42)) ;;
   Ok (option_map accuracy (fst (fst r1)),
       option_map accuracy (fst (fst r2))))
  = Ok (Some 0.84121592199358386%float, Some 0.84195843383222224%float).
Proof. vm_compute. reflexivity. Qed.

(** C3, the constructor given [pop_size = 0]: an engine, and [ValueError]
    from [run]. *)
Lemma C3_witness :
  exists self,
    __init__ domain42 0 100 0.35 0.15 42 = Ok self /\
    run self = Raise ValueError.
Proof.
  destruct (C3_constructor_checks_nothing domain42 0 100 0.35 0.15 42)
    as (self & Hinit & _ & Hrun & _).
  exists self. split; [ exact Hinit | apply Hrun; lia ].
Defined.

(** C3, the claim as stated fails: the constructor accepts [pop_size = 0],
    and the error comes when [run] is called; it accepts [pop_size = 1] with
    [forget_rate = 0.9], the initial population is built, and the first
    generation raises [IndexError] inside the loop, at [choice(elite)]. *)
Lemma C3_counterexample :
  __init__ domain42 0 100 0.35 0.15 42 = Ok engine_pop0 /\
  run engine_pop0 = Raise ValueError /\
  __init__ domain42 1 100 0.9 0.15 42 = Ok engine_keep0 /\
  keep_count engine_keep0 = Ok 0 /\
  rmap (fun _ => tt) (run_init engine_keep0) = Ok tt /\
  (s <- run_init engine_keep0 ;; generation_step 1 s) = Raise IndexError /\
  run engine_keep0 = Raise IndexError.
Proof. repeat split; vm_compute; reflexivity. Qed.

(** C5, a generation the theorem applies to. *)
Lemma C5_witness :
  paradox_capacity engine8_started = Ok 1 /\
  len (paradox_buffer engine8_gen1) <= 1.
Proof.
  destruct (proj1 (C5_paradox_buffer_rebuilt (G:=gen)) engine8_started 1
              engine8_step1_population engine8_gen1)
    as (sel & s1 & c & _ & Hc & _ & _ & _ & _ & Hlen & _).
  - vm_compute. reflexivity.
  - split; [ vm_compute; reflexivity | ].
    assert (Hc1 : paradox_capacity engine8_started = Ok 1)
      by (vm_compute; reflexivity).
    rewrite Hc1 in Hc. injection Hc as <-. exact Hlen.
Defined.

(** C5, the claim as stated fails: with [pop_size = 8] and
    [paradox_rate = 0.2] the eliminated set has 2 paradoxical members and
    [round(1.6) = 2], so the buffer described would hold both; the code cuts
    at [max(1, int(1.6)) = 1] and keeps one.  For the default
    [pop_size = 50] and [paradox_rate = 0.15] the capacity is 7, not 8. *)
Lemma C5_counterexample :
  (s <- run_init engine8 ;;
   '(sel, s1) <- select 1 s ;;
   c <- rounded_capacity s ;;
   Ok (len (sel_candidates sel), c,
       len (Py.slice_to c (Py.sorted_asc params (sel_candidates sel))),
       len (paradox_buffer s1))) = Ok (2, 2, 2, 1) /\
  rmap (fun r => paradox_count (snd (fst r))) (run engine8) = Ok 1 /\
  paradox_capacity (engine_with domain42 50 100 0.35 0.15 (seeded 42)) = Ok 7 /\
  rounded_capacity (engine_with domain42 50 100 0.35 0.15 (seeded 42)) = Ok 8.
Proof. repeat split; vm_compute; reflexivity. Qed.

(** C6, an encoding of six layers after five remove mutations: three. *)
Lemma C6_witness :
  rmap (fun r => len (fst r))
    (remove_times 5 ["CONV3"; "CONV5"; "POOL"; "DROP"; "DROP"; "POOL"]
       (script [0; 0; 0; 0; 0])) = Ok 3.
Proof.
  destruct (proj1 (proj2 (C6_remove_floor_is_three (G:=gen))) 5%nat
              ["CONV3"; "CONV5"; "POOL"; "DROP"; "DROP"; "POOL"]
              (script [0; 0; 0; 0; 0])) as (l' & g' & Hr & Hlen).
  rewrite Hr. unfold rmap. cbn [rbind fst]. rewrite Hlen. reflexivity.
Defined.

(** C6, the claim as stated fails: a remove mutation on an encoding of
    length 4 (which is greater than 3) gives a child of length 3. *)
Lemma C6_counterexample :
  len (layers parent4) = 4 /\
  rmap (fun r => len (layers (fst r))) (mutate_arch engine_remove parent4)
  = Ok 3.
Proof. split; vm_compute; reflexivity. Qed.

(** The domain's own sampler makes between 3 and 10 layers. *)
Lemma domain_create_random_arch_depth {G : Type} `{RandomGen G}
  (d : @NASRefinerDomain.t G) :
  exists a d',
    NASRefinerDomain._create_random_arch d = Ok (a, d') /\
    3 <= len (layers a) <= 10.
Proof.
  unfold NASRefinerDomain._create_random_arch.
  destruct (randint_ok 3 10 (NASRefinerDomain.rng d) ltac:(lia))
    as [v [Hv Hrange]].
  rewrite Hv. cbn [rbind].
  destruct (draw_layers_ok (Z.to_nat v)
              (snd (randbelow (10 - 3 + 1) (NASRefinerDomain.rng d))))
    as [l [g2 [Hl [Hlen _]]]].
  rewrite Hl. cbn [rbind].
  destruct (NASRefinerDomain.estimate_performance
              (NASRefinerDomain.set_rng d g2)
              (new_Architecture l (count_params l))) as [acc d'].
  eexists _, _. split; [ reflexivity | ].
  unfold len. cbn. lia.
Qed.

(** C7, the code at the failing input.  With the draws of
    [random.Random(7)] for the engine and of [random.Random(42)] for the
    domain, a run of [pop_size = 1] and no generation returns as
    [best_overall] the one initial architecture: 15 layers, drawn by the
    engine's own sampler from the engine's generator; only the noise of its
    accuracy comes from the domain's generator.  The domain's sampler makes
    at most 10 layers. *)
Theorem C7_engine_samples_with_its_own_sampler :
  rmap (fun r => option_map layers (fst (fst r))) (run engine_seed7)
  = Ok (Some ["CONV5"; "DROP"; "CONV3"; "CONV3"; "CONV3"; "POOL"; "CONV3";
              "CONV5"; "CONV3"; "CONV3"; "DROP"; "DROP"; "CONV3"; "CONV5";
              "CONV3"]) /\
  rmap (fun r => option_map (fun a => len (layers a)) (fst (fst r)))
    (run engine_seed7) = Ok (Some 15) /\
  rmap (fun r => option_map accuracy (fst (fst r))) (run engine_seed7)
  = Ok (Some 0.86557707193831535%float) /\
  rmap (fun r => tape (rng (snd r))) (run engine_seed7) = Ok [] /\
  rmap (fun r => tape (NASRefinerDomain.rng (domain (snd r))))
    (run engine_seed7) = Ok [] /\
  rmap (fun r => best_overall (snd r)) (run engine_seed7)
  = rmap (fun r => Some r) (s <- run_init engine_seed7 ;;
                            Py.max_by accuracy (population s)).
Proof. repeat split; vm_compute; reflexivity. Qed.

(** C8, generation 2 of a run of [pop_size = 4]: the best accuracy 0.8412 of
    the initial population stays, the generation's best being 0.8327. *)
Lemma C8_witness :
  run_generations 2 engine4 = Ok engine4_gen2 /\
  option_map accuracy (best_overall engine4_gen2)
  = option_map accuracy (best_overall engine4_gen1).
Proof.
  destruct (C8_best_overall_monotone engine4 1 engine4_gen1
              engine4_step2_population engine4_gen2)
    as (Hrun & b & b' & cb & _).
  - lia.
  - vm_compute. reflexivity.
  - vm_compute. reflexivity.
  - split; [ exact Hrun | vm_compute; reflexivity ].
Defined.


(** A configuration within [0 <= forget_rate < 1] whose elite is empty
    through rounding: [10 * (1 - 0.9)] is [0.9999999999999998] in binary64,
    so [keep_count] is 0 where the exact product 1 was meant. *)
Example keep_count_ten_ninety :
  keep_count engine_ten_ninety = Ok 0 /\
  (Py.float_of_Z 10 * (1 - 0.9))%float = 0.99999999999999978%float.
Proof. split; vm_compute; reflexivity. Qed.

(** The two other ways a generation step fails with [pop_size > 0] and
    [forget_rate = 0.35]: a target complexity of 0 raises
    [ZeroDivisionError] in [compute_elimination_score], and a [paradox_rate]
    that is NaN raises [ValueError] in [int]. *)
Example generation_step_other_failures :
  (s <- run_init engine_target0 ;; generation_step 1 s)
  = Raise ZeroDivisionError /\
  (s <- run_init engine_rate_nan ;; generation_step 1 s) = Raise ValueError.
Proof. split; vm_compute; reflexivity. Qed.


(** X1, a run of two generations: the stored population still has the four
    initial encodings. *)
Lemma X1_witness :
  run_init engine4 = Ok engine4_started /\
  map layers (population engine4_gen2) = map layers (population engine4_started).
Proof.
  destruct (X1_stored_population_is_initial engine4 2 engine4_started
              engine4_gen2) as (Hl & _).
  - vm_compute. reflexivity.
  - vm_compute. reflexivity.
  - split; [ vm_compute; reflexivity | exact Hl ].
Defined.

(** X4, on two encodings: the order of the layers does not matter, and a
    layer name outside the four operations counts 10000. *)
Lemma X4_witness :
  count_params ["POOL"; "CONV3"] = count_params ["CONV3"; "POOL"] /\
  count_params ["DENSE"; "POOL"] = 11000.
Proof.
  destruct X4_count_params_additive as (_ & Hperm & Hunknown & _).
  split.
  - apply Hperm, perm_swap.
  - rewrite Hunknown; [ reflexivity | ].
    intros [Hop | [Hop | [Hop | [Hop | []]]]]; discriminate Hop.
Defined.

(** X5, a parent of four layers: the child has three to five layers. *)
Lemma X5_witness :
  exists child,
    rmap fst (mutate_arch engine_remove parent4) = Ok child /\
    3 <= len (layers child) <= 5.
Proof.
  destruct (X5_mutate_arch_postcondition engine_remove parent4)
    as (child & ge & gd & Hm & _ & _ & _ & _ & _ & _ & Hfull).
  destruct Hfull as (Hlen & _); [ discriminate | ].
  exists child. rewrite Hm. split; [ reflexivity | ].
  change (len (layers parent4)) with 4 in Hlen. lia.
Defined.

(** X7, three mutations of a parent of four layers: three to seven layers. *)
Lemma X7_witness :
  exists child,
    rmap fst (mutate_times 3 engine_remove parent4) = Ok child /\
    3 <= len (layers child) <= 7.
Proof.
  destruct (X7_mutation_length_bounds (G:=gen)) as (Hbounds & _).
  destruct (Hbounds 3%nat engine_remove parent4) as (child & s' & Hm & Hlen);
    [ discriminate | ].
  exists child. rewrite Hm. split; [ reflexivity | ].
  change (len (layers parent4)) with 4 in Hlen. lia.
Defined.


(** X9, the run of [pop_size = 1] and [forget_rate = 0.5], which raises
    [IndexError]. *)
Lemma X9_witness :
  run engine_pop1 = Raise IndexError /\ run_error IndexError.
Proof.
  destruct (X9_run_raises_only engine_pop1 IndexError) as [Herr _].
  - vm_compute. reflexivity.
  - split; [ vm_compute; reflexivity | exact Herr ].
Defined.

(** X10, [pop_size = 3] and [forget_rate = 1.5]: [keep_count] is -1, the
    elite has two members, the eliminated one, and together they are the
    sorted population. *)
Lemma X10_witness :
  keep_count engine_fr15 = Ok (-1) /\
  select 1 engine_fr15_started
  = Ok (engine_fr15_selection, engine_fr15_selected) /\
  len (sel_elite engine_fr15_selection) = 2 /\
  sel_elite engine_fr15_selection ++ sel_eliminated engine_fr15_selection
  = sel_sorted engine_fr15_selection.
Proof.
  destruct (X10_partition_for_any_keep_count 1 engine_fr15_started
              engine_fr15_selection engine_fr15_selected) as (Happ & _).
  - vm_compute. reflexivity.
  - split; [ vm_compute; reflexivity | ].
    split; [ vm_compute; reflexivity | ].
    split; [ reflexivity | exact Happ ].
Defined.

(** X11, a generation that completes with [keep_count = 0]: both members of
    the next population are the one architecture of the paradox buffer. *)
Lemma X11_witness :
  keep_count engine_buffer_only_started = Ok 0 /\
  generation_step 1 engine_buffer_only_started
  = Ok (engine_buffer_only_population, engine_buffer_only_gen1) /\
  len (paradox_buffer engine_buffer_only_gen1) = 1 /\
  Forall (fun a => In a (paradox_buffer engine_buffer_only_gen1))
         engine_buffer_only_population.
Proof.
  destruct (X11_generation_without_elite 1 engine_buffer_only_started)
    as (Hok & _).
  - vm_compute. reflexivity.
  - cbn. lia.
  - destruct (Hok engine_buffer_only_population engine_buffer_only_gen1)
      as (_ & _ & Hall).
    + vm_compute. reflexivity.
    + split; [ vm_compute; reflexivity | ].
      split; [ vm_compute; reflexivity | ].
      split; [ reflexivity | exact Hall ].
Defined.

(** X12, the default rates over a domain of target complexity 0. *)
Lemma X12_witness : run engine_target0 = Raise ZeroDivisionError.
Proof.
  apply X12_zero_target_raises.
  - reflexivity.
  - cbn. lia.
  - cbn. lia.
Defined.

(** X14, the run of [pop_size = 4]: no member of the population that
    generation 2 built is more accurate than the best the run returns. *)
Lemma X14_witness :
  run engine4
  = Ok ((Some engine4_best, {| paradox_count := 1 |}), engine4_gen2) /\
  Forall (fun a => (accuracy a <=? accuracy engine4_best)%float = true)
         engine4_step2_population.
Proof.
  split; [ vm_compute; reflexivity | ].
  apply (X14_best_dominates_every_generation engine4 1 engine4_gen1
           engine4_step2_population engine4_gen2 engine4_best
           {| paradox_count := 1 |} engine4_gen2).
  - cbn. lia.
  - vm_compute. reflexivity.
  - vm_compute. reflexivity.
  - vm_compute. reflexivity.
Defined.
